(** * Von Mises sampler: a shallow embedding of [sampleVonMisesMex.c]

    The file embeds the two functions of the MEX source,
    [sample] (ratio-of-uniforms rejection sampling, Barabesi 1995) and
    [mexFunction] (argument validation and output allocation), and proves
    the properties the specification states about them.

    Numbers.  A C [double] is modelled by the type [double] below: a real
    number of Rocq's [R], or one of the three IEEE-754 special values
    (plus infinity, minus infinity, not-a-number).  Arithmetic on finite
    values is exact: no rounding, no overflow, one zero (the positive
    one), and a decimal literal such as [1.3] or [M_PI] denotes the
    number it is written for.  The special values follow the tables of
    IEEE-754 and of C Annex F, so that a division by zero, a logarithm of
    zero or a comparison with a NaN behaves in the model the way it does
    in the compiled program.

    Effects.  The pseudo-random generator of the C library is a parameter:
    a state type with [srand] and [rand] passing the state explicitly.
    The [while (true)] loop is followed for a number of passes given as
    fuel; the predicate [accepts_eventually] says of a generator state
    that the loop entered there reaches its [break].

    Layout.  The model of [double]; the functions of the source, in the
    order of the source; the wording of the specification and a few
    concrete generators; then the properties, the claims of the
    specification being the theorems marked with their identifier, and
    their instances on concrete generators.  Statements about values are
    statements of the exact arithmetic; where a property of the program
    depends on the rounding of a [double] it is left out. *)

From Stdlib Require Import Reals Lra Lia ZArith List Bool.
From stdpp Require Import base list.

Local Open Scope R_scope.

(** ** The [double] model *)

Inductive double : Type :=
  | Fin (r : R)
  | PInf
  | NInf
  | NaN.

Definition Rltb (a b : R) : bool := if Rlt_dec a b then true else false.
Definition Rleb (a b : R) : bool := if Rle_dec a b then true else false.

(** Integer part of a real, rounding toward zero (the C conversion rule). *)
Definition Rtrunc (r : R) : Z :=
  if Rle_dec 0 r then Zfloor r else Zceil r.

(** The mathematical two-argument arctangent: the angle of the point
    [(x, y)], principal value. *)
Definition atan2R (y x : R) : R :=
  if Rlt_dec 0 x then atan (y / x)
  else if Rlt_dec x 0 then
         (if Rlt_dec y 0 then atan (y / x) - PI else atan (y / x) + PI)
  else if Rlt_dec 0 y then PI / 2
  else if Rlt_dec y 0 then - (PI / 2)
  else 0.

Module Double.

(** The infinity that a nonzero finite [r] turns into when it is
    multiplied by plus infinity or divided by (positive) zero; a zero [r]
    gives NaN. *)
Definition signed_inf (r : R) : double :=
  if Rlt_dec 0 r then PInf else if Rlt_dec r 0 then NInf else NaN.

Definition of_int (z : Z) : double := Fin (IZR z).

Definition INT_MAX : Z := 2147483647.
Definition INT_MIN : Z := -2147483648.

(** [(int) x]: defined only when the integral part is representable
    (C11 6.3.1.4); [None] stands for undefined behaviour. *)
Definition to_int (x : double) : option Z :=
  match x with
  | Fin r =>
      let z := Rtrunc r in
      if (Z.leb INT_MIN z && Z.leb z INT_MAX)%bool then Some z else None
  | _ => None
  end.

Definition neg (x : double) : double :=
  match x with
  | Fin r => Fin (- r)
  | PInf => NInf
  | NInf => PInf
  | NaN => NaN
  end.

Definition add (x y : double) : double :=
  match x, y with
  | Fin a, Fin b => Fin (a + b)
  | NaN, _ | _, NaN => NaN
  | PInf, NInf | NInf, PInf => NaN
  | PInf, _ | _, PInf => PInf
  | NInf, _ | _, NInf => NInf
  end.

Definition sub (x y : double) : double := add x (neg y).

Definition mul (x y : double) : double :=
  match x, y with
  | Fin a, Fin b => Fin (a * b)
  | NaN, _ | _, NaN => NaN
  | Fin a, PInf | PInf, Fin a => signed_inf a
  | Fin a, NInf | NInf, Fin a => signed_inf (- a)
  | PInf, PInf | NInf, NInf => PInf
  | PInf, NInf | NInf, PInf => NInf
  end.

Definition div (x y : double) : double :=
  match x, y with
  | Fin a, Fin b => if Req_dec_T b 0 then signed_inf a else Fin (a / b)
  | NaN, _ | _, NaN => NaN
  | Fin _, _ => Fin 0
  | PInf, Fin b => if Rlt_dec b 0 then NInf else PInf
  | NInf, Fin b => if Rlt_dec b 0 then PInf else NInf
  | _, _ => NaN
  end.

(** [x < y], [x > y], [x <= y]: false as soon as one side is a NaN. *)
Definition lt (x y : double) : bool :=
  match x, y with
  | Fin a, Fin b => Rltb a b
  | NaN, _ | _, NaN => false
  | _, NInf => false
  | PInf, _ => false
  | _, _ => true
  end.

Definition gt (x y : double) : bool := lt y x.

Definition le (x y : double) : bool :=
  match x, y with
  | Fin a, Fin b => Rleb a b
  | NaN, _ | _, NaN => false
  | NInf, _ => true
  | _, PInf => true
  | _, _ => false
  end.

Definition fabs (x : double) : double :=
  match x with
  | Fin r => Fin (Rabs r)
  | PInf | NInf => PInf
  | NaN => NaN
  end.

Definition sqrt (x : double) : double :=
  match x with
  | Fin r => if Rlt_dec r 0 then NaN else Fin (R_sqrt.sqrt r)
  | PInf => PInf
  | NInf | NaN => NaN
  end.

Definition exp (x : double) : double :=
  match x with
  | Fin r => Fin (Rtrigo_def.exp r)
  | PInf => PInf
  | NInf => Fin 0
  | NaN => NaN
  end.

Definition log (x : double) : double :=
  match x with
  | Fin r =>
      if Rlt_dec 0 r then Fin (ln r)
      else if Rlt_dec r 0 then NaN else NInf
  | PInf => PInf
  | NInf | NaN => NaN
  end.

Definition cos (x : double) : double :=
  match x with Fin r => Fin (Rtrigo_def.cos r) | _ => NaN end.

Definition sin (x : double) : double :=
  match x with Fin r => Fin (Rtrigo_def.sin r) | _ => NaN end.

(** [pow (x, n)] for an exponent that is a natural number, the only use
    the source makes of [pow] ([pow (angle, 2)]). *)
Fixpoint pow (x : double) (n : nat) : double :=
  match n with
  | O => Fin 1
  | S n' => mul x (pow x n')
  end.

(** [atan2 (y, x)], special values as in C Annex F.10.1.4. *)
Definition atan2 (y x : double) : double :=
  match y, x with
  | Fin b, Fin a => Fin (atan2R b a)
  | NaN, _ | _, NaN => NaN
  | Fin _, PInf => Fin 0
  | Fin b, NInf => if Rlt_dec b 0 then Fin (- PI) else Fin PI
  | PInf, Fin _ => Fin (PI / 2)
  | NInf, Fin _ => Fin (- (PI / 2))
  | PInf, PInf => Fin (PI / 4)
  | PInf, NInf => Fin (3 * PI / 4)
  | NInf, PInf => Fin (- (PI / 4))
  | NInf, NInf => Fin (- (3 * PI / 4))
  end.

Definition M_PI : double := Fin PI.

End Double.

Coercion Fin : R >-> double.

Declare Scope double_scope.
Delimit Scope double_scope with D.
Bind Scope double_scope with double.
Infix "+" := Double.add : double_scope.
Infix "-" := Double.sub : double_scope.
Infix "*" := Double.mul : double_scope.
Infix "/" := Double.div : double_scope.
Notation "- x" := (Double.neg x) : double_scope.
Infix "<?" := Double.lt : double_scope.
Infix ">?" := Double.gt : double_scope.
Infix "<=?" := Double.le : double_scope.

(** ** [sample]: the sampling parameter (source lines 56-62) *)

Definition samplingParameter (kappa : double) : double :=
  if (kappa >? Fin 1.3)%D
  then (Fin 1 / Double.sqrt kappa)%D
  else (Double.M_PI * Double.exp (- kappa))%D.

(** ** The C library and the clock

    [stdlib.h] and [time.h] are not part of the repository.  The constant
    [RAND_MAX] and the pseudo-random generator are parameters of the
    development: [prng] is the generator's hidden state, [srand seed] the
    state right after seeding, and [rand g] the number returned by one
    call of [rand ()] together with the state it leaves behind. *)

(** What the call reads from its surroundings to build the seed:
    [time (NULL)], [clock ()] and [random ()]. *)
Record environment : Type := {
  time : Z;
  clock : Z;
  random : Z
}.

(** The argument of [srand] is an [unsigned int]: the sum is reduced
    modulo [2^32]. *)
Definition seed (env : environment) : Z :=
  ((time env + clock env + random env) mod 2 ^ 32)%Z.

(** How one pass through the body of [while (true)] ends. *)
Inductive control : Type :=
  | Break
  | Continue.

(** The three tests of the loop body (source lines 73-89) on a candidate
    [angle] drawn with first uniform [randomSample1]. *)
Definition loop_tests (kappa angle randomSample1 : double) : control :=
  if (Double.fabs angle >? Double.M_PI)%D then Continue
  else if (kappa * Double.pow angle 2 <? Fin 4 - Fin 4 * randomSample1)%D
       then Break
  else if (kappa * Double.cos angle
             <? Fin 2 * Double.log randomSample1 + kappa)%D
       then Continue
  else Break.

(** Source line 71. *)
Definition candidate (samplingParameter randomSample1 randomSample2 : double)
  : double :=
  (samplingParameter * (Fin 2 * randomSample2 - Fin 1) / randomSample1)%D.

(** Source line 92. *)
Definition recentre (mu angle : double) : double :=
  Double.atan2 (Double.sin (angle + mu)%D) (Double.cos (angle + mu)%D).

(** ** [mexFunction] *)

(** What the validation reads of an argument. *)
Record mxArray : Type := {
  mxIsDouble : bool;
  mxIsScalar : bool;
  mxGetScalar : double
}.

(** A real double scalar holding [v], what MATLAB passes for a numeric
    literal. *)
Definition double_scalar (v : double) : mxArray :=
  {| mxIsDouble := true; mxIsScalar := true; mxGetScalar := v |}.

(** The identifiers passed to [mexErrMsgIdAndTxt], which aborts the
    call. *)
Inductive mexErrId : Type :=
  | err_nrhs
  | err_nlhs
  | err_notScalar
  | err_notRealPositiveScalar
  | err_notIntPositiveScalar.

Inductive outcome : Type :=
  | Returned (plhs0 : list double)
  | MexError (id : mexErrId)
  | Undefined
  | StillRunning.

(** [mwSize] is [size_t]. *)
Definition to_mwSize (z : Z) : Z := (z mod 2 ^ 64)%Z.

(** Source lines 134-149: the optional third argument. *)
Definition read_numSamples (rest : list mxArray) : mexErrId + option Z :=
  match rest with
  | [] => inr (Some 1%Z)
  | p2 :: _ =>
      if negb (mxIsDouble p2) || negb (mxIsScalar p2)
         || (mxGetScalar p2 <=? Fin 0)%D
      then inl err_notIntPositiveScalar
      else inr (option_map to_mwSize (Double.to_int (mxGetScalar p2)))
  end.

(** ** The specification's wording of one iteration

    Section 4.1, step 2, items 3 to 6 of the specification, on real
    numbers: reject when the candidate is out of range, else accept on the
    quadratic bound, else reject on the exact test, else accept. *)
Inductive spec_decision (kappa angle u1 : R) : control -> Prop :=
  | reject_out_of_range :
      Rabs angle > PI ->
      spec_decision kappa angle u1 Continue
  | accept_quadratic :
      ~ Rabs angle > PI ->
      kappa * angle ^ 2 < 4 - 4 * u1 ->
      spec_decision kappa angle u1 Break
  | reject_exact :
      ~ Rabs angle > PI ->
      ~ kappa * angle ^ 2 < 4 - 4 * u1 ->
      kappa * cos angle < 2 * ln u1 + kappa ->
      spec_decision kappa angle u1 Continue
  | accept_exact :
      ~ Rabs angle > PI ->
      ~ kappa * angle ^ 2 < 4 - 4 * u1 ->
      ~ kappa * cos angle < 2 * ln u1 + kappa ->
      spec_decision kappa angle u1 Break.

(** Step 1 of section 4.1 of the specification, on real numbers. *)
Definition spec_samplingParameter (kappa : R) : R :=
  if Rlt_dec 1.3 kappa then 1 / sqrt kappa else PI * exp (- kappa).

(** ** Generators used in the examples

    [constant_rand r] returns [r] at every call; its state counts the
    calls made so far.  [glibc_RAND_MAX] is the value of [RAND_MAX] in the GNU
    C library. *)
Definition glibc_RAND_MAX : Z := 2147483647.

Definition constant_rand (r : Z) (g : nat) : Z * nat := (r, S g).

(** [scripted_rand]: the state is the list of the numbers still to come;
    once it is used up the generator returns [0]. *)
Definition scripted_rand (g : list Z) : Z * list Z :=
  match g with
  | [] => (0%Z, [])
  | r :: g' => (r, g')
  end.

Definition constant_srand (seed : Z) : nat := O.

(** The portable generator that the C standard gives as an example
    (C11 7.22.2.2), for which [RAND_MAX] is [32767]; the state is the
    variable [next], here of 32 bits. *)
Definition ansi_RAND_MAX : Z := 32767.

Definition ansi_srand (seed : Z) : Z := seed.

Definition ansi_rand (next : Z) : Z * Z :=
  let next' := ((next * 1103515245 + 12345) mod 2 ^ 32)%Z in
  (((next' / 65536) mod 32768)%Z, next').

(** Two surroundings that differ in every reading and give the same
    seed. *)
Definition example_env : environment :=
  {| time := 1700000000; clock := 1234; random := 42 |}.

Definition example_env' : environment :=
  {| time := 1700000001; clock := 1200; random := 75 |}.


Section Sampler.

Variable RAND_MAX : Z.
Variable prng : Type.
Variable srand : Z -> prng.
Variable rand : prng -> Z * prng.

(** [(double) rand () / (double) RAND_MAX] (source lines 67-68). *)
Definition uniform (g : prng) : double * prng :=
  let (r, g') := rand g in
  ((Double.of_int r / Double.of_int RAND_MAX)%D, g').

(** One pass through the loop body: the two draws, the candidate, the
    verdict and the generator state afterwards. *)
Definition loop_body (kappa samplingParameter : double) (g : prng)
  : control * double * prng :=
  let (randomSample1, g1) := uniform g in
  let (randomSample2, g2) := uniform g1 in
  let angle := candidate samplingParameter randomSample1 randomSample2 in
  (loop_tests kappa angle randomSample1, angle, g2).

(** [while (true) { ... }]: [fuel] bounds the number of passes the model
    follows; [None] means the loop was still running when it ran out. *)
Fixpoint rejection_loop (fuel : nat) (kappa samplingParameter : double)
    (g : prng) : option (double * prng) :=
  match fuel with
  | O => None
  | S fuel' =>
      match loop_body kappa samplingParameter g with
      | (Break, angle, g') => Some (angle, g')
      | (Continue, _, g') => rejection_loop fuel' kappa samplingParameter g'
      end
  end.

(** [for (i = 0; i < numSamples; i++)], entered at index [i] with
    [todo = numSamples - i] samples still to produce. *)
Fixpoint for_loop (fuel : nat) (mu kappa samplingParameter : double)
    (todo i : nat) (g : prng) (angles : list double)
  : option (list double) :=
  match todo with
  | O => Some angles
  | S todo' =>
      match rejection_loop fuel kappa samplingParameter g with
      | None => None
      | Some (angle, g') =>
          for_loop fuel mu kappa samplingParameter todo' (S i) g'
                   (<[ i := recentre mu angle ]> angles)
      end
  end.

(** The candidates the successive rejection loops break with, in order:
    the angles that [for_loop] recentres and stores. *)
Fixpoint accepted_angles (fuel : nat) (kappa samplingParameter : double)
    (todo : nat) (g : prng) : option (list double) :=
  match todo with
  | O => Some []
  | S todo' =>
      match rejection_loop fuel kappa samplingParameter g with
      | None => None
      | Some (angle, g') =>
          option_map (cons angle)
            (accepted_angles fuel kappa samplingParameter todo' g')
      end
  end.

(** The rejection loop entered with generator state [g] reaches [break]:
    this pass does, or the rest of the loop after this pass does. *)
Inductive accepts_eventually (kappa samplingParameter : double)
  : prng -> Prop :=
  | accepts_now g :
      (loop_body kappa samplingParameter g).1.1 = Break ->
      accepts_eventually kappa samplingParameter g
  | accepts_later g :
      accepts_eventually kappa samplingParameter
        (loop_body kappa samplingParameter g).2 ->
      accepts_eventually kappa samplingParameter g.

(** [void sample (double mu, double kappa, double *angles,
    mwSize numSamples)]: the result is the content of [angles] when the
    function returns. *)
Definition sample (env : environment) (fuel : nat) (mu kappa : double)
    (angles : list double) (numSamples : Z) : option (list double) :=
  let g := srand (seed env) in
  for_loop fuel mu kappa (samplingParameter kappa)
           (Z.to_nat numSamples) 0 g angles.

(** [void mexFunction (int nlhs, mxArray *plhs[], int nrhs,
    const mxArray *prhs[])]: [nrhs] is the length of [prhs], the result
    is [plhs[0]]. *)
Definition mexFunction (env : environment) (fuel : nat) (nlhs : Z)
    (prhs : list mxArray) : outcome :=
  let nrhs := length prhs in
  if negb (Nat.eqb nrhs 2) && negb (Nat.eqb nrhs 3)
  then MexError err_nrhs
  else if negb (Z.eqb nlhs 1) then MexError err_nlhs
  else
    match prhs with
    | p0 :: p1 :: rest =>
        if negb (mxIsDouble p0) || negb (mxIsScalar p0)
           || (mxGetScalar p0 <? - Double.M_PI)%D
           || (mxGetScalar p0 >? Double.M_PI)%D
        then MexError err_notScalar
        else if negb (mxIsDouble p1) || negb (mxIsScalar p1)
                || (mxGetScalar p1 <? Fin 0)%D
        then MexError err_notRealPositiveScalar
        else
          match read_numSamples rest with
          | inl id => MexError id
          | inr None => Undefined
          | inr (Some numSamples) =>
              let mu := mxGetScalar p0 in
              let kappa := mxGetScalar p1 in
              let plhs0 := replicate (Z.to_nat numSamples) (Fin 0) in
              match sample env fuel mu kappa plhs0 numSamples with
              | Some angles => Returned angles
              | None => StillRunning
              end
          end
    | _ => MexError err_nrhs
    end.

(** * Properties *)

(** ** Comparisons of finite values *)

Lemma Rltb_true (a b : R) : Rltb a b = true <-> a < b.
Proof. unfold Rltb; destruct (Rlt_dec a b); split; intros; try easy. Qed.

Lemma Rltb_false (a b : R) : Rltb a b = false <-> b <= a.
Proof.
  unfold Rltb; destruct (Rlt_dec a b); split; intros; try easy; lra.
Qed.

Lemma Rleb_true (a b : R) : Rleb a b = true <-> a <= b.
Proof. unfold Rleb; destruct (Rle_dec a b); split; intros; try easy. Qed.

Lemma Rleb_false (a b : R) : Rleb a b = false <-> b < a.
Proof.
  unfold Rleb; destruct (Rle_dec a b); split; intros; try easy; lra.
Qed.

Lemma div_finite (a b : R) : b <> 0 -> (Fin a / Fin b)%D = Fin (a / b).
Proof.
  intros Hb; simpl. destruct (Req_dec_T b 0); [contradiction | reflexivity].
Qed.

Lemma div_by_zero (a : R) : (Fin a / Fin 0)%D = Double.signed_inf a.
Proof.
  simpl. destruct (Req_dec_T 0 0); [reflexivity | contradiction].
Qed.

Lemma sqrt_finite (a : R) : 0 <= a -> Double.sqrt (Fin a) = Fin (sqrt a).
Proof.
  intros Ha; simpl. destruct (Rlt_dec a 0); [lra | reflexivity].
Qed.

Lemma log_finite (a : R) : 0 < a -> Double.log (Fin a) = Fin (ln a).
Proof.
  intros Ha; simpl. destruct (Rlt_dec 0 a); [reflexivity | lra].
Qed.

Lemma pow_2_finite (a : R) : Double.pow (Fin a) 2 = Fin (a ^ 2).
Proof. simpl. do 2 f_equal. Qed.

(** ** The sampling parameter *)

Lemma samplingParameter_high (kappa : R) :
  1.3 < kappa -> samplingParameter (Fin kappa) = Fin (1 / sqrt kappa).
Proof.
  intros Hk. unfold samplingParameter, Double.gt, Double.lt.
  assert (Hlt : Rltb 1.3 kappa = true) by (apply Rltb_true; exact Hk).
  rewrite Hlt, sqrt_finite by lra.
  apply div_finite.
  assert (0 < sqrt kappa) by (apply sqrt_lt_R0; lra). lra.
Qed.

Lemma samplingParameter_low (kappa : R) :
  kappa <= 1.3 -> samplingParameter (Fin kappa) = Fin (PI * exp (- kappa)).
Proof.
  intros Hk. unfold samplingParameter, Double.gt, Double.lt.
  assert (Hlt : Rltb 1.3 kappa = false) by (apply Rltb_false; exact Hk).
  rewrite Hlt. reflexivity.
Qed.

(** The sampling parameter of a finite concentration is finite and
    positive. *)
Lemma samplingParameter_pos (kappa : R) :
  exists s : R, samplingParameter (Fin kappa) = Fin s /\ 0 < s.
Proof.
  destruct (Rlt_dec 1.3 kappa) as [Hk | Hk].
  - exists (1 / sqrt kappa). split; [apply samplingParameter_high; exact Hk |].
    assert (0 < sqrt kappa) by (apply sqrt_lt_R0; lra).
    apply Rdiv_lt_0_compat; lra.
  - exists (PI * exp (- kappa)). split; [apply samplingParameter_low; lra |].
    apply Rmult_lt_0_compat; [apply PI_RGT_0 | apply exp_pos].
Qed.

Lemma samplingParameter_refines (kappa : R) :
  samplingParameter (Fin kappa) = Fin (spec_samplingParameter kappa).
Proof.
  unfold spec_samplingParameter. destruct (Rlt_dec 1.3 kappa).
  - apply samplingParameter_high. assumption.
  - apply samplingParameter_low. lra.
Qed.

Lemma spec_samplingParameter_bounds (kappa : R) :
  0 <= kappa ->
  0 < spec_samplingParameter kappa <= 4
  /\ kappa * spec_samplingParameter kappa ^ 2 <= 21.
Proof.
  intros Hk. unfold spec_samplingParameter.
  destruct (Rlt_dec 1.3 kappa) as [Hhigh | Hlow].
  - assert (Hroot : 1 < sqrt kappa).
    { rewrite <- sqrt_1 at 1. apply sqrt_lt_1; lra. }
    assert (Hsq : sqrt kappa * sqrt kappa = kappa) by (apply sqrt_sqrt; lra).
    assert (Hinv : 0 < 1 / sqrt kappa < 1).
    { split.
      - apply Rdiv_lt_0_compat; lra.
      - apply Rmult_lt_reg_r with (sqrt kappa); [lra |].
        replace (1 / sqrt kappa * sqrt kappa) with 1 by (field; lra). lra. }
    split; [lra |].
    replace (kappa * (1 / sqrt kappa) ^ 2) with 1; [lra |].
    rewrite <- Hsq at 1. field. lra.
  - pose proof PI_RGT_0 as Hpi. pose proof PI_4 as Hpi4.
    assert (Hexp : 0 < exp (- kappa) <= 1).
    { split; [apply exp_pos |].
      destruct Hk as [Hk | <-].
      - rewrite <- exp_0. apply Rlt_le, exp_increasing. lra.
      - rewrite Ropp_0, exp_0. lra. }
    assert (Hs : 0 < PI * exp (- kappa) <= 4) by nra.
    split; [exact Hs |].
    assert (Hs2 : (PI * exp (- kappa)) ^ 2 <= 16) by nra.
    nra.
Qed.

(** C2: for a concentration [kappa >= 0], the sampling parameter is
    [1 / sqrt kappa] when [kappa > 1.3] and [pi * exp (- kappa)]
    otherwise; for [kappa = 0] it is [pi]. *)
Theorem samplingParameter_spec (kappa : R) :
  0 <= kappa ->
  (1.3 < kappa -> samplingParameter (Fin kappa) = Fin (1 / sqrt kappa))
  /\ (kappa <= 1.3 ->
      samplingParameter (Fin kappa) = Fin (PI * exp (- kappa)))
  /\ samplingParameter (Fin 0) = Fin PI.
Proof.
  intros _. split; [apply samplingParameter_high |].
  split; [apply samplingParameter_low |].
  rewrite samplingParameter_low by lra.
  f_equal. rewrite Ropp_0, exp_0. lra.
Qed.

Lemma samplingParameter_spec_witness :
  samplingParameter (Fin 2) = Fin (1 / sqrt 2)
  /\ samplingParameter (Fin 1) = Fin (PI * exp (- 1)).
Proof.
  split.
  - apply (samplingParameter_spec 2); lra.
  - apply (samplingParameter_spec 1); lra.
Defined.

(** ** One iteration of the rejection loop *)

(** The tests of the loop body on finite values, as real comparisons. *)
Lemma loop_tests_finite (kappa angle u1 : R) :
  0 < u1 ->
  loop_tests (Fin kappa) (Fin angle) (Fin u1) =
    if Rlt_dec PI (Rabs angle) then Continue
    else if Rlt_dec (kappa * angle ^ 2) (4 - 4 * u1) then Break
    else if Rlt_dec (kappa * cos angle) (2 * ln u1 + kappa) then Continue
    else Break.
Proof.
  intros Hu. unfold loop_tests.
  rewrite log_finite, pow_2_finite by exact Hu.
  cbn [Double.gt Double.lt Double.fabs Double.mul Double.sub Double.add
       Double.neg Double.cos Double.M_PI].
  unfold Rltb, Rminus.
  destruct (Rlt_dec PI (Rabs angle)); [reflexivity |].
  destruct (Rlt_dec (kappa * angle ^ 2) (4 + - (4 * u1))); [reflexivity |].
  destruct (Rlt_dec (kappa * cos angle) (2 * ln u1 + kappa)); reflexivity.
Qed.

(** The specification's cases exclude one another: it names one verdict. *)
Lemma spec_decision_functional (kappa angle u1 : R) (c c' : control) :
  spec_decision kappa angle u1 c -> spec_decision kappa angle u1 c' -> c = c'.
Proof.
  intros H H'; destruct H; inversion H'; subst; try reflexivity;
    contradiction.
Qed.

Lemma loop_tests_spec (kappa angle u1 : R) (c : control) :
  0 < u1 ->
  loop_tests (Fin kappa) (Fin angle) (Fin u1) = c
  <-> spec_decision kappa angle u1 c.
Proof.
  intros Hu.
  assert (Hrun : spec_decision kappa angle u1
                   (loop_tests (Fin kappa) (Fin angle) (Fin u1))).
  { rewrite loop_tests_finite by exact Hu.
    destruct (Rlt_dec PI (Rabs angle)) as [H1 | H1].
    - apply reject_out_of_range. exact H1.
    - destruct (Rlt_dec (kappa * angle ^ 2) (4 - 4 * u1)) as [H2 | H2].
      + apply accept_quadratic; assumption.
      + destruct (Rlt_dec (kappa * cos angle) (2 * ln u1 + kappa)).
        * apply reject_exact; assumption.
        * apply accept_exact; assumption. }
  split.
  - intros <-. exact Hrun.
  - intros Hc. eapply spec_decision_functional; eassumption.
Qed.

Lemma candidate_finite (s u1 u2 : R) :
  u1 <> 0 ->
  candidate (Fin s) (Fin u1) (Fin u2) = Fin (s * (2 * u2 - 1) / u1).
Proof.
  intros Hu. unfold candidate.
  cbn [Double.mul Double.sub Double.add Double.neg].
  rewrite div_finite by exact Hu. reflexivity.
Qed.

Lemma uniform_finite (g : prng) :
  (RAND_MAX <> 0)%Z ->
  uniform g = (Fin (IZR (rand g).1 / IZR RAND_MAX), (rand g).2).
Proof.
  intros HR. unfold uniform, Double.of_int.
  destruct (rand g) as [r g']. rewrite div_finite; [reflexivity |].
  intros H0. apply eq_IZR_R0 in H0. contradiction.
Qed.

(** C1: one iteration of the rejection loop, on the draws [r1] and [r2]
    of [rand ()] with [u1 = r1 / RAND_MAX] nonzero and
    [u2 = r2 / RAND_MAX], forms [angle = s * (2 * u2 - 1) / u1] and decides
    exactly as the specification words it: retry if [|angle| > pi],
    otherwise accept if [kappa * angle^2 < 4 - 4 * u1], otherwise retry
    if [kappa * cos angle < 2 * ln u1 + kappa], otherwise accept. *)
Theorem loop_body_decides (kappa s : R) (g g1 g2 : prng) (r1 r2 : Z) :
  0 <= kappa ->
  (0 < RAND_MAX)%Z ->
  rand g = (r1, g1) ->
  rand g1 = (r2, g2) ->
  (0 < r1)%Z ->
  let u1 := IZR r1 / IZR RAND_MAX in
  let u2 := IZR r2 / IZR RAND_MAX in
  let angle := s * (2 * u2 - 1) / u1 in
  forall c : control,
    loop_body (Fin kappa) (Fin s) g = (c, Fin angle, g2)
    <-> spec_decision kappa angle u1 c.
Proof.
  intros _ HR Hg Hg1 Hr1 u1 u2 angle c.
  assert (Hu1 : 0 < u1).
  { apply Rdiv_lt_0_compat; apply IZR_lt; assumption. }
  unfold loop_body.
  rewrite uniform_finite, Hg by lia. cbn [fst snd].
  rewrite uniform_finite, Hg1 by lia. cbn [fst snd].
  fold u1 u2. rewrite candidate_finite by lra. fold angle.
  rewrite <- (loop_tests_spec kappa angle u1 c Hu1).
  split.
  - intros H. injection H. auto.
  - intros ->. reflexivity.
Qed.

(** ** The loops *)

Lemma rejection_loop_fuel_mono (fuel fuel' : nat) (kappa s : double)
    (g : prng) (r : double * prng) :
  rejection_loop fuel kappa s g = Some r ->
  (fuel <= fuel')%nat ->
  rejection_loop fuel' kappa s g = Some r.
Proof.
  revert fuel' g. induction fuel as [| fuel IH]; intros fuel' g H Hle.
  - discriminate.
  - destruct fuel' as [| fuel']; [lia |].
    simpl in *. destruct (loop_body kappa s g) as [[[] angle] g'].
    + exact H.
    + apply IH; [exact H | lia].
Qed.

Lemma rejection_loop_terminates (kappa s : double) (g : prng) :
  accepts_eventually kappa s g ->
  exists fuel r, rejection_loop fuel kappa s g = Some r.
Proof.
  induction 1 as [g Hnow | g Hlater (fuel & r & IH)].
  - exists 1%nat. simpl.
    destruct (loop_body kappa s g) as [[c angle] g']; simpl in Hnow.
    subst c. eauto.
  - destruct (loop_body kappa s g) as [[c angle] g'] eqn:Hbody.
    destruct c.
    + exists 1%nat. simpl. rewrite Hbody. eauto.
    + exists (S fuel), r. simpl. rewrite Hbody. exact IH.
Qed.

(** What the rejection loop returns is a candidate that passed the tests. *)
Lemma rejection_loop_accepted (fuel : nat) (kappa s : double) (g g' : prng)
    (angle : double) :
  rejection_loop fuel kappa s g = Some (angle, g') ->
  exists g0, loop_body kappa s g0 = (Break, angle, g').
Proof.
  revert g. induction fuel as [| fuel IH]; intros g H; [discriminate |].
  simpl in H. destruct (loop_body kappa s g) as [[[] a] g1] eqn:Hbody.
  - injection H as -> ->. exists g. exact Hbody.
  - apply IH in H. exact H.
Qed.

Lemma for_loop_fuel_mono (fuel fuel' : nat) (mu kappa s : double)
    (todo i : nat) (g : prng) (angles out : list double) :
  for_loop fuel mu kappa s todo i g angles = Some out ->
  (fuel <= fuel')%nat ->
  for_loop fuel' mu kappa s todo i g angles = Some out.
Proof.
  revert i g angles.
  induction todo as [| todo IH]; intros i g angles H Hle; simpl in *.
  - exact H.
  - destruct (rejection_loop fuel kappa s g) as [[angle g'] |] eqn:Hrej;
      [| discriminate].
    rewrite (rejection_loop_fuel_mono _ _ _ _ _ _ Hrej Hle).
    apply IH; assumption.
Qed.

Lemma for_loop_terminates (mu kappa s : double) (todo i : nat) (g : prng)
    (angles : list double) :
  (forall g0, accepts_eventually kappa s g0) ->
  exists fuel out, for_loop fuel mu kappa s todo i g angles = Some out.
Proof.
  intros Hacc. revert i g angles.
  induction todo as [| todo IH]; intros i g angles.
  - exists 0%nat, angles. reflexivity.
  - destruct (rejection_loop_terminates kappa s g (Hacc g))
      as (fuel1 & [angle g'] & Hrej).
    destruct (IH (S i) g' (<[ i := recentre mu angle ]> angles))
      as (fuel2 & out & Hfor).
    exists (Nat.max fuel1 fuel2), out. simpl.
    rewrite (rejection_loop_fuel_mono fuel1 _ _ _ _ _ Hrej) by lia.
    apply (for_loop_fuel_mono fuel2); [exact Hfor | lia].
Qed.

Lemma for_loop_length (fuel : nat) (mu kappa s : double) (todo i : nat)
    (g : prng) (angles out : list double) :
  for_loop fuel mu kappa s todo i g angles = Some out ->
  length out = length angles.
Proof.
  revert i g angles.
  induction todo as [| todo IH]; intros i g angles H; simpl in H.
  - injection H as <-. reflexivity.
  - destruct (rejection_loop fuel kappa s g) as [[angle g'] |];
      [| discriminate].
    apply IH in H. rewrite H. apply length_insert.
Qed.

(** The array after the loop: untouched below [i], the recentred accepted
    angles from [i] on, untouched from [i + todo] on. *)
Lemma for_loop_stores (fuel : nat) (mu kappa s : double) (todo i : nat)
    (g : prng) (angles : list double) :
  (i + todo <= length angles)%nat ->
  for_loop fuel mu kappa s todo i g angles =
    option_map
      (fun accepted =>
         take i angles ++ map (recentre mu) accepted
           ++ drop (i + todo) angles)
      (accepted_angles fuel kappa s todo g).
Proof.
  revert i g angles.
  induction todo as [| todo IH]; intros i g angles Hlen; simpl.
  - rewrite Nat.add_0_r. simpl. rewrite take_drop. reflexivity.
  - destruct (rejection_loop fuel kappa s g) as [[angle g'] |];
      [| reflexivity].
    rewrite IH by (rewrite length_insert; lia).
    destruct (accepted_angles fuel kappa s todo g') as [accepted |];
      [| reflexivity].
    simpl. f_equal.
    rewrite (take_S_r _ _ (recentre mu angle))
      by (apply list_lookup_insert_eq; lia).
    rewrite take_insert_ge by lia.
    rewrite drop_insert_lt by lia.
    rewrite <- app_assoc. simpl.
    replace (S (i + todo)) with (i + S todo)%nat by lia. reflexivity.
Qed.

Lemma accepted_angles_length (fuel : nat) (kappa s : double) (todo : nat)
    (g : prng) (accepted : list double) :
  accepted_angles fuel kappa s todo g = Some accepted ->
  length accepted = todo.
Proof.
  revert g accepted.
  induction todo as [| todo IH]; intros g accepted H; simpl in H.
  - injection H as <-. reflexivity.
  - destruct (rejection_loop fuel kappa s g) as [[angle g'] |];
      [| discriminate].
    destruct (accepted_angles fuel kappa s todo g') as [l |] eqn:Hl;
      [| discriminate].
    injection H as <-. simpl. f_equal. eapply IH. exact Hl.
Qed.

(** Every accepted angle is the candidate of a pass that ended in
    [break]. *)
Lemma accepted_angles_accepted (fuel : nat) (kappa s : double) (todo : nat)
    (g : prng) (accepted : list double) :
  accepted_angles fuel kappa s todo g = Some accepted ->
  Forall (fun angle =>
            exists g0 g', loop_body kappa s g0 = (Break, angle, g'))
         accepted.
Proof.
  revert g accepted.
  induction todo as [| todo IH]; intros g accepted H; simpl in H.
  - injection H as <-. constructor.
  - destruct (rejection_loop fuel kappa s g) as [[angle g'] |] eqn:Hrej;
      [| discriminate].
    destruct (accepted_angles fuel kappa s todo g') as [l |] eqn:Hl;
      [| discriminate].
    injection H as <-. constructor.
    + apply rejection_loop_accepted in Hrej as [g0 Hg0]. eauto.
    + eapply IH. exact Hl.
Qed.

(** ** The two-argument arctangent *)

Lemma atan2R_range (y x : R) : - PI < atan2R y x <= PI.
Proof.
  pose proof PI_RGT_0 as Hpi.
  pose proof (atan_bound (y / x)) as [Hlo Hhi].
  unfold atan2R.
  destruct (Rlt_dec 0 x) as [Hx | Hx]; [lra |].
  destruct (Rlt_dec x 0) as [Hx' | Hx'].
  - destruct (Rlt_dec y 0) as [Hy | Hy].
    + assert (0 < y / x).
      { unfold Rdiv. replace (y * / x) with ((- y) * / (- x)) by (field; lra).
        apply Rmult_lt_0_compat; [lra |]. apply Rinv_0_lt_compat. lra. }
      pose proof (atan_increasing 0 (y / x) H) as Hinc.
      rewrite atan_0 in Hinc. lra.
    + assert (Hle : y / x <= 0).
      { unfold Rdiv. replace (y * / x) with (- (y * / (- x))) by (field; lra).
        assert (0 <= y * / - x); [| lra].
        apply Rmult_le_pos; [lra |].
        apply Rlt_le, Rinv_0_lt_compat. lra. }
      destruct Hle as [Hlt | Heq].
      * pose proof (atan_increasing (y / x) 0 Hlt) as Hinc.
        rewrite atan_0 in Hinc. lra.
      * rewrite Heq, atan_0. lra.
  - destruct (Rlt_dec 0 y); [lra |].
    destruct (Rlt_dec y 0); lra.
Qed.

(** On the unit circle the two-argument arctangent recovers the angle:
    its cosine and sine are the two coordinates. *)
Lemma atan2R_unit (y x : R) :
  x * x + y * y = 1 ->
  cos (atan2R y x) = x /\ sin (atan2R y x) = y.
Proof.
  intros Hunit. unfold atan2R.
  assert (Hroot : x <> 0 -> sqrt (1 + (y / x)²) = / Rabs x).
  { intros Hx0. apply sqrt_lem_1.
    - unfold Rsqr. nra.
    - apply Rlt_le, Rinv_0_lt_compat, Rabs_pos_lt. exact Hx0.
    - assert (Habs : Rabs x * Rabs x = x * x).
      { unfold Rabs. destruct (Rcase_abs x); ring. }
      assert (Hx2 : x * x <> 0) by nra.
      assert (Ha0 : Rabs x <> 0) by (apply Rabs_no_R0; exact Hx0).
      unfold Rsqr.
      replace (/ Rabs x * / Rabs x) with (/ (Rabs x * Rabs x))
        by (field; exact Ha0).
      rewrite Habs.
      replace (1 + y / x * (y / x)) with ((x * x + y * y) / (x * x))
        by (field; exact Hx0).
      rewrite Hunit. field. exact Hx0. }
  destruct (Rlt_dec 0 x) as [Hx | Hx].
  - rewrite cos_atan, sin_atan, Hroot by lra.
    rewrite Rabs_pos_eq by lra. split; field; lra.
  - destruct (Rlt_dec x 0) as [Hx' | Hx'].
    + assert (Habs : Rabs x = - x) by (apply Rabs_left; exact Hx').
      destruct (Rlt_dec y 0).
      * unfold Rminus. rewrite cos_plus, sin_plus, cos_neg, sin_neg.
        rewrite cos_PI, sin_PI, cos_atan, sin_atan, Hroot, Habs by lra.
        split; field; lra.
      * rewrite neg_cos, neg_sin, cos_atan, sin_atan, Hroot, Habs by lra.
        split; field; lra.
    + assert (x = 0) by lra. subst x.
      assert (Hy : y * y = 1) by lra.
      destruct (Rlt_dec 0 y).
      * rewrite cos_PI2, sin_PI2. split; [reflexivity | nra].
      * destruct (Rlt_dec y 0).
        -- rewrite cos_neg, sin_neg, cos_PI2, sin_PI2.
           split; [reflexivity | nra].
        -- exfalso. nra.
Qed.

Lemma cos_eq_1 (d : R) : cos d = 1 -> exists k : Z, d = 2 * IZR k * PI.
Proof.
  intros Hd.
  assert (Hhalf : sin (d / 2) = 0).
  { pose proof (cos_2a_sin (d / 2)) as H2.
    replace (2 * (d / 2)) with d in H2 by field.
    rewrite Hd in H2. nra. }
  apply sin_eq_0_0 in Hhalf as [k Hk].
  exists k. lra.
Qed.

(** The identity behind the recentring step: the two-argument arctangent
    of the sine and the cosine of [theta] is [theta] up to a whole number
    of turns. *)
Lemma atan2R_wraps (theta : R) :
  exists k : Z, atan2R (sin theta) (cos theta) = theta + 2 * IZR k * PI.
Proof.
  destruct (atan2R_unit (sin theta) (cos theta)) as [Hc Hs].
  { pose proof (sin2_cos2 theta) as H. unfold Rsqr in H. lra. }
  set (phi := atan2R (sin theta) (cos theta)) in *.
  destruct (cos_eq_1 (phi - theta)) as [k Hk].
  { rewrite cos_minus, Hc, Hs.
    pose proof (sin2_cos2 theta) as H. unfold Rsqr in H. lra. }
  exists k. lra.
Qed.


Lemma recentre_finite (mu angle : R) :
  recentre (Fin mu) (Fin angle) =
    Fin (atan2R (sin (angle + mu)) (cos (angle + mu))).
Proof. reflexivity. Qed.

(** ** Special values in the loop body *)

Lemma loop_tests_infinite (kappa u1 angle : double) :
  angle = PInf \/ angle = NInf -> loop_tests kappa angle u1 = Continue.
Proof. intros [-> | ->]; reflexivity. Qed.

(** A candidate that leaves the loop is a finite angle of absolute value
    at most [pi], or a NaN. *)
Lemma loop_tests_break (kappa u1 angle : double) :
  loop_tests kappa angle u1 = Break ->
  angle = NaN \/ exists a : R, angle = Fin a /\ Rabs a <= PI.
Proof.
  destruct angle as [a | | |]; intros H.
  - right. exists a. split; [reflexivity |].
    unfold loop_tests in H.
    cbn [Double.fabs Double.gt Double.lt Double.M_PI] in H.
    destruct (Rltb PI (Rabs a)) eqn:Hlt; [discriminate |].
    apply Rltb_false in Hlt. exact Hlt.
  - discriminate.
  - discriminate.
  - left. reflexivity.
Qed.

Lemma candidate_zero_divisor (s u2 : R) :
  candidate (Fin s) (Fin 0) (Fin u2) = Double.signed_inf (s * (2 * u2 - 1)).
Proof.
  unfold candidate. cbn [Double.mul Double.sub Double.add Double.neg].
  apply div_by_zero.
Qed.

Lemma signed_inf_cases (r : R) :
  (0 < r /\ Double.signed_inf r = PInf)
  \/ (r < 0 /\ Double.signed_inf r = NInf)
  \/ (r = 0 /\ Double.signed_inf r = NaN).
Proof.
  unfold Double.signed_inf.
  destruct (Rlt_dec 0 r); [left; auto |].
  destruct (Rlt_dec r 0); [right; left; auto |].
  right; right. split; [lra | reflexivity].
Qed.

Lemma half_draw (r m : Z) :
  (m <> 0)%Z -> 2 * (IZR r / IZR m) - 1 = 0 -> (2 * r = m)%Z.
Proof.
  intros Hm H.
  assert (Hm' : IZR m <> 0) by (intros H0; apply eq_IZR_R0 in H0; lia).
  assert (Hr : IZR r = IZR r / IZR m * IZR m) by (field; exact Hm').
  assert (Hhalf : IZR r / IZR m = 1 / 2) by lra.
  rewrite Hhalf in Hr.
  apply eq_IZR. rewrite mult_IZR. lra.
Qed.

Lemma IZR_ratio_bounds (r m : Z) :
  (0 < m)%Z -> (0 <= r <= m)%Z -> 0 <= IZR r / IZR m <= 1.
Proof.
  intros Hm [Hr0 Hrm].
  apply IZR_lt in Hm. apply IZR_le in Hr0, Hrm.
  split.
  - apply Rmult_le_pos; [exact Hr0 |].
    apply Rlt_le, Rinv_0_lt_compat. exact Hm.
  - apply Rmult_le_reg_r with (IZR m); [exact Hm |].
    replace (IZR r / IZR m * IZR m) with (IZR r) by (field; lra). lra.
Qed.

Lemma IZR_ratio_zero (r m : Z) :
  (m <> 0)%Z -> IZR r / IZR m = 0 <-> r = 0%Z.
Proof.
  intros Hm.
  assert (Hm' : IZR m <> 0) by (intros H0; apply eq_IZR_R0 in H0; lia).
  split.
  - intros H. apply eq_IZR_R0.
    replace (IZR r) with (IZR r / IZR m * IZR m) by (field; exact Hm').
    rewrite H. ring.
  - intros ->. unfold Rdiv. ring.
Qed.

(** With an odd [RAND_MAX] no draw is exactly one half, so a candidate is
    never the NaN of [0 / 0]: what leaves the loop is a finite angle. *)
Lemma loop_body_break_finite (kappa : R) (g g' : prng) (angle : double) :
  Z.odd RAND_MAX = true ->
  loop_body (Fin kappa) (samplingParameter (Fin kappa)) g
    = (Break, angle, g') ->
  exists a : R, angle = Fin a /\ Rabs a <= PI.
Proof.
  intros Hodd Hbody.
  assert (HR : (RAND_MAX <> 0)%Z) by (intros ->; discriminate).
  destruct (samplingParameter_pos kappa) as (s & Hs & Hspos).
  unfold loop_body in Hbody. rewrite Hs in Hbody.
  rewrite (uniform_finite g HR) in Hbody.
  rewrite (uniform_finite _ HR) in Hbody.
  set (u1 := IZR (rand g).1 / IZR RAND_MAX) in *.
  set (u2 := IZR (rand (rand g).2).1 / IZR RAND_MAX) in *.
  injection Hbody as Htests Hangle _.
  rewrite Hangle in Htests.
  apply loop_tests_break in Htests as [Hnan | Hfin]; [| exact Hfin].
  exfalso. rewrite <- Hangle in Hnan.
  destruct (Req_dec_T u1 0) as [Hu1 | Hu1].
  - rewrite Hu1, candidate_zero_divisor in Hnan.
    destruct (signed_inf_cases (s * (2 * u2 - 1)))
      as [[_ H] | [[_ H] | [Hzero _]]];
      try (rewrite H in Hnan; discriminate).
    apply Rmult_integral in Hzero as [Hzero | Hzero]; [lra |].
    apply half_draw in Hzero; [| exact HR].
    apply Z.odd_spec in Hodd as [m Hm]. lia.
  - rewrite candidate_finite in Hnan by exact Hu1. discriminate.
Qed.

(** C4: the array [sample] returns holds, for every accepted angle in
    order, [atan2 (sin (angle + mu), cos (angle + mu))]; on finite values
    this is [angle + mu] moved by a whole number of turns into
    [(-pi, pi]]. *)
Theorem emitted_sample (env : environment) (fuel : nat) (mu kappa : double)
    (numSamples : Z) (angles out : list double) :
  length angles = Z.to_nat numSamples ->
  sample env fuel mu kappa angles numSamples = Some out ->
  (exists accepted : list double,
      accepted_angles fuel kappa (samplingParameter kappa)
        (Z.to_nat numSamples) (srand (seed env)) = Some accepted
      /\ Forall (fun angle =>
                   exists g0 g',
                     loop_body kappa (samplingParameter kappa) g0
                       = (Break, angle, g'))
                accepted
      /\ out = map (fun angle =>
                      Double.atan2 (Double.sin (angle + mu)%D)
                                   (Double.cos (angle + mu)%D))
                   accepted)
  /\ (forall a m : R,
        exists k : Z,
          Double.atan2 (Double.sin (Fin a + Fin m)%D)
                       (Double.cos (Fin a + Fin m)%D)
            = Fin (a + m + 2 * IZR k * PI)
          /\ - PI < a + m + 2 * IZR k * PI <= PI).
Proof.
  intros Hlen Hsample. split.
  - unfold sample in Hsample.
    rewrite for_loop_stores in Hsample by lia.
    destruct (accepted_angles fuel kappa (samplingParameter kappa)
                (Z.to_nat numSamples) (srand (seed env)))
      as [accepted |] eqn:Hacc; [| discriminate].
    injection Hsample as <-.
    rewrite <- Hlen, drop_all, app_nil_r.
    exists accepted. split; [reflexivity |]. split; [| reflexivity].
    eapply accepted_angles_accepted. exact Hacc.
  - intros a m. destruct (atan2R_wraps (a + m)) as [k Hk].
    exists k. cbn [Double.add Double.sin Double.cos Double.atan2].
    rewrite Hk. split; [reflexivity |].
    rewrite <- Hk. apply atan2R_range.
Qed.

(** C5, as the code has it: the divisor [u1 = rand () / RAND_MAX] lies
    in [[0, 1]] and is zero exactly when [rand ()] returns [0]; nothing
    guards the division.  When it is zero and the numerator
    [s * (2 * u2 - 1)] is not, the quotient is an infinity and the
    iteration is retried. *)
Theorem divisor_zero_iff (kappa : double) (s : R) (g g1 g2 : prng)
    (r1 r2 : Z) :
  (0 < RAND_MAX)%Z ->
  rand g = (r1, g1) ->
  rand g1 = (r2, g2) ->
  (0 <= r1 <= RAND_MAX)%Z ->
  (exists u1 : R,
      uniform g = (Fin u1, g1) /\ 0 <= u1 <= 1 /\ (u1 = 0 <-> r1 = 0%Z))
  /\ (r1 = 0%Z -> s <> 0 -> (2 * r2 <> RAND_MAX)%Z ->
      exists angle : double,
        (angle = PInf \/ angle = NInf)
        /\ loop_body kappa (Fin s) g = (Continue, angle, g2)).
Proof.
  intros HR Hg Hg1 Hr1.
  assert (HR0 : (RAND_MAX <> 0)%Z) by lia.
  split.
  - exists (IZR r1 / IZR RAND_MAX).
    rewrite (uniform_finite g HR0), Hg. cbn [fst snd].
    split; [reflexivity |]. split.
    + apply IZR_ratio_bounds; assumption.
    + apply IZR_ratio_zero. exact HR0.
  - intros -> Hs Hr2. unfold loop_body.
    rewrite (uniform_finite g HR0), Hg. cbn [fst snd].
    rewrite (uniform_finite g1 HR0), Hg1. cbn [fst snd].
    replace (IZR 0 / IZR RAND_MAX) with 0 by (unfold Rdiv; ring).
    rewrite candidate_zero_divisor.
    destruct (signed_inf_cases (s * (2 * (IZR r2 / IZR RAND_MAX) - 1)))
      as [[_ H] | [[_ H] | [Hzero _]]].
    + rewrite H. exists PInf. split; [left; reflexivity | reflexivity].
    + rewrite H. exists NInf. split; [right; reflexivity | reflexivity].
    + exfalso. apply Rmult_integral in Hzero as [Hzero | Hzero];
        [contradiction |].
      apply half_draw in Hzero; [contradiction | exact HR0].
Qed.

(** ** Conversion of the count *)

Lemma Rtrunc_nonneg (c : R) : 0 <= c -> Rtrunc c = Zfloor c.
Proof.
  intros Hc. unfold Rtrunc. destruct (Rle_dec 0 c); [reflexivity | lra].
Qed.

Lemma Rtrunc_IZR (n : Z) : Rtrunc (IZR n) = n.
Proof.
  unfold Rtrunc. destruct (Rle_dec 0 (IZR n)); [apply ZfloorZ |].
  apply Zceil_eq. lra.
Qed.

Lemma Rtrunc_below_one (c : R) : 0 <= c < 1 -> Rtrunc c = 0%Z.
Proof.
  intros Hc. rewrite Rtrunc_nonneg by lra. apply Zfloor_eq. simpl. lra.
Qed.

Lemma to_int_in_range (c : R) :
  0 <= c < 2147483648 ->
  Double.to_int (Fin c) = Some (Rtrunc c)
  /\ (0 <= Rtrunc c <= Double.INT_MAX)%Z.
Proof.
  intros [Hc0 Hc1]. rewrite Rtrunc_nonneg by exact Hc0.
  assert (Hlo : (0 <= Zfloor c)%Z) by (apply Zfloor_lub; simpl; lra).
  assert (Hhi : (Zfloor c <= Double.INT_MAX)%Z).
  { pose proof (Zfloor_bound c) as [Hfl _].
    assert (Hlt : IZR (Zfloor c) < IZR 2147483648) by lra.
    apply lt_IZR in Hlt. unfold Double.INT_MAX. lia. }
  split; [| lia].
  unfold Double.to_int. rewrite Rtrunc_nonneg by exact Hc0.
  assert (Hmin : (Double.INT_MIN <= Zfloor c)%Z)
    by (unfold Double.INT_MIN; lia).
  apply Z.leb_le in Hmin, Hhi. rewrite Hmin, Hhi. reflexivity.
Qed.

Lemma to_int_too_large (c : R) :
  2147483648 <= c -> Double.to_int (Fin c) = None.
Proof.
  intros Hc. unfold Double.to_int. rewrite Rtrunc_nonneg by lra.
  assert (Hbig : (2147483648 <= Zfloor c)%Z) by (apply Zfloor_lub; exact Hc).
  assert (Hhi : (Zfloor c <=? Double.INT_MAX)%Z = false).
  { apply Z.leb_gt. unfold Double.INT_MAX. lia. }
  rewrite Hhi, andb_false_r. reflexivity.
Qed.

Lemma to_mwSize_small (z : Z) :
  (0 <= z <= Double.INT_MAX)%Z -> to_mwSize z = z.
Proof.
  intros Hz. unfold to_mwSize. apply Z.mod_small.
  unfold Double.INT_MAX in Hz. lia.
Qed.

Lemma read_numSamples_count (c : R) :
  0 < c < 2147483648 ->
  read_numSamples [double_scalar (Fin c)] = inr (Some (Rtrunc c)).
Proof.
  intros Hc. unfold read_numSamples, double_scalar.
  cbn [mxIsDouble mxIsScalar mxGetScalar negb orb Double.le].
  assert (Hle : Rleb c 0 = false) by (apply Rleb_false; lra).
  rewrite Hle.
  destruct (to_int_in_range c) as [-> Hrange]; [lra |].
  cbn [option_map]. rewrite to_mwSize_small by exact Hrange. reflexivity.
Qed.

Lemma sample_length (env : environment) (fuel : nat) (mu kappa : double)
    (numSamples : Z) (angles out : list double) :
  sample env fuel mu kappa angles numSamples = Some out ->
  length out = length angles.
Proof. apply for_loop_length. Qed.

Lemma sample_terminates (env : environment) (mu kappa : double)
    (numSamples : Z) (angles : list double) :
  (forall g, accepts_eventually kappa (samplingParameter kappa) g) ->
  exists fuel out,
    sample env fuel mu kappa angles numSamples = Some out.
Proof. intros Hacc. apply for_loop_terminates. exact Hacc. Qed.

(** With a mean and a concentration that pass their checks, the outcome
    is decided by the optional third argument. *)
Lemma mexFunction_checked (env : environment) (fuel : nat) (mu kappa : R)
    (rest : list mxArray) :
  - PI <= mu <= PI ->
  0 <= kappa ->
  (length rest <= 1)%nat ->
  mexFunction env fuel 1
    (double_scalar (Fin mu) :: double_scalar (Fin kappa) :: rest) =
    match read_numSamples rest with
    | inl id => MexError id
    | inr None => Undefined
    | inr (Some numSamples) =>
        match
          sample env fuel (Fin mu) (Fin kappa)
            (replicate (Z.to_nat numSamples) (Fin 0)) numSamples
        with
        | Some angles => Returned angles
        | None => StillRunning
        end
    end.
Proof.
  intros Hmu Hkappa Hrest. unfold mexFunction.
  assert (Hn : (negb (length (double_scalar (Fin mu)
                                :: double_scalar (Fin kappa) :: rest) =? 2)
                && negb (length (double_scalar (Fin mu)
                                   :: double_scalar (Fin kappa) :: rest) =? 3))%nat
               = false).
  { destruct rest as [| p2 [| p3 rest]]; simpl in *; try reflexivity. lia. }
  rewrite Hn. cbn [Z.eqb negb Pos.eqb].
  unfold double_scalar.
  cbn [mxIsDouble mxIsScalar mxGetScalar negb orb Double.lt Double.gt
       Double.neg Double.M_PI].
  assert (H1 : Rltb mu (- PI) = false) by (apply Rltb_false; lra).
  assert (H2 : Rltb PI mu = false) by (apply Rltb_false; lra).
  assert (H3 : Rltb kappa 0 = false) by (apply Rltb_false; lra).
  rewrite H1, H2, H3. reflexivity.
Qed.

(** Arguments that pass every check: the call goes on to allocate and to
    sample. *)
Lemma mexFunction_valid (env : environment) (fuel : nat) (mu kappa : R)
    (rest : list mxArray) (numSamples : Z) :
  - PI <= mu <= PI ->
  0 <= kappa ->
  (length rest <= 1)%nat ->
  read_numSamples rest = inr (Some numSamples) ->
  mexFunction env fuel 1
    (double_scalar (Fin mu) :: double_scalar (Fin kappa) :: rest) =
    match
      sample env fuel (Fin mu) (Fin kappa)
        (replicate (Z.to_nat numSamples) (Fin 0)) numSamples
    with
    | Some angles => Returned angles
    | None => StillRunning
    end.
Proof.
  intros Hmu Hkappa Hrest Hread.
  rewrite mexFunction_checked, Hread by assumption. reflexivity.
Qed.

Lemma mexFunction_count_below_one (env : environment) (fuel : nat)
    (mu kappa c : R) :
  - PI <= mu <= PI ->
  0 <= kappa ->
  0 < c < 1 ->
  mexFunction env fuel 1
    [double_scalar (Fin mu); double_scalar (Fin kappa);
     double_scalar (Fin c)] = Returned [].
Proof.
  intros Hmu Hkappa Hc.
  rewrite (mexFunction_valid env fuel mu kappa _ 0); try assumption.
  - reflexivity.
  - simpl. lia.
  - rewrite read_numSamples_count by lra.
    rewrite Rtrunc_below_one by lra. reflexivity.
Qed.

(** C7: a valid call returns exactly [numSamples] values, and [1] value
    when the count is omitted.  Every return has that length, and the
    call does return as soon as the generator lets each rejection loop
    reach an accepted candidate. *)
Theorem output_length (env : environment) (mu kappa : R)
    (count : option Z) :
  - PI <= mu <= PI ->
  0 <= kappa ->
  (forall n, count = Some n -> (1 <= n <= Double.INT_MAX)%Z) ->
  let prhs :=
    double_scalar (Fin mu) :: double_scalar (Fin kappa)
      :: match count with
         | Some n => [double_scalar (Double.of_int n)]
         | None => []
         end in
  let numSamples := match count with Some n => n | None => 1%Z end in
  (forall fuel out,
      mexFunction env fuel 1 prhs = Returned out ->
      length out = Z.to_nat numSamples)
  /\ ((forall g,
         accepts_eventually (Fin kappa) (samplingParameter (Fin kappa)) g) ->
      exists fuel out,
        mexFunction env fuel 1 prhs = Returned out
        /\ length out = Z.to_nat numSamples).
Proof.
  intros Hmu Hkappa Hcount prhs numSamples.
  assert (Hcall : forall fuel,
             mexFunction env fuel 1 prhs =
               match
                 sample env fuel (Fin mu) (Fin kappa)
                   (replicate (Z.to_nat numSamples) (Fin 0)) numSamples
               with
               | Some angles => Returned angles
               | None => StillRunning
               end).
  { intros fuel. subst prhs numSamples.
    destruct count as [n |].
    - specialize (Hcount n eq_refl). unfold Double.INT_MAX in Hcount.
      apply mexFunction_valid; try assumption; [simpl; lia |].
      unfold Double.of_int.
      rewrite read_numSamples_count, Rtrunc_IZR; [reflexivity |].
      split; [apply IZR_lt; lia | apply IZR_lt; lia].
    - apply mexFunction_valid; try assumption; [simpl; lia | reflexivity]. }
  assert (Hlen : forall fuel out,
             mexFunction env fuel 1 prhs = Returned out ->
             length out = Z.to_nat numSamples).
  { intros fuel out. rewrite Hcall.
    destruct (sample env fuel (Fin mu) (Fin kappa)
                (replicate (Z.to_nat numSamples) (Fin 0)) numSamples)
      as [angles |] eqn:Hs; [| discriminate].
    intros H; injection H as <-.
    apply sample_length in Hs. rewrite Hs. apply length_replicate. }
  split; [exact Hlen |].
  intros Hacc.
  destruct (sample_terminates env (Fin mu) (Fin kappa) numSamples
              (replicate (Z.to_nat numSamples) (Fin 0)) Hacc)
    as (fuel & out & Hs).
  exists fuel, out.
  assert (Hret : mexFunction env fuel 1 prhs = Returned out)
    by (rewrite Hcall, Hs; reflexivity).
  split; [exact Hret | exact (Hlen fuel out Hret)].
Qed.

(** C8, as the code has it: a count [c] with [0 < c < 2^31], integer or
    not, passes validation, and the returned sequence has length
    [trunc c]; a count with [0 < c < 1] gives an empty output. *)
Theorem fractional_count (env : environment) (mu kappa c : R) :
  - PI <= mu <= PI ->
  0 <= kappa ->
  0 < c < 2147483648 ->
  let prhs :=
    [double_scalar (Fin mu); double_scalar (Fin kappa);
     double_scalar (Fin c)] in
  (forall fuel,
      (exists out,
          mexFunction env fuel 1 prhs = Returned out
          /\ length out = Z.to_nat (Rtrunc c))
      \/ mexFunction env fuel 1 prhs = StillRunning)
  /\ ((forall g,
         accepts_eventually (Fin kappa) (samplingParameter (Fin kappa)) g) ->
      exists fuel out,
        mexFunction env fuel 1 prhs = Returned out
        /\ length out = Z.to_nat (Rtrunc c))
  /\ (c < 1 -> forall fuel, mexFunction env fuel 1 prhs = Returned []).
Proof.
  intros Hmu Hkappa Hc prhs.
  assert (Hcall : forall fuel,
             mexFunction env fuel 1 prhs =
               match
                 sample env fuel (Fin mu) (Fin kappa)
                   (replicate (Z.to_nat (Rtrunc c)) (Fin 0)) (Rtrunc c)
               with
               | Some angles => Returned angles
               | None => StillRunning
               end).
  { intros fuel. subst prhs.
    apply mexFunction_valid; try assumption; [simpl; lia |].
    apply read_numSamples_count. exact Hc. }
  split; [| split].
  - intros fuel. rewrite Hcall.
    destruct (sample env fuel (Fin mu) (Fin kappa)
                (replicate (Z.to_nat (Rtrunc c)) (Fin 0)) (Rtrunc c))
      as [angles |] eqn:Hs; [left | right; reflexivity].
    exists angles. split; [reflexivity |].
    apply sample_length in Hs. rewrite Hs. apply length_replicate.
  - intros Hacc.
    destruct (sample_terminates env (Fin mu) (Fin kappa) (Rtrunc c)
                (replicate (Z.to_nat (Rtrunc c)) (Fin 0)) Hacc)
      as (fuel & out & Hs).
    exists fuel, out. rewrite Hcall, Hs. split; [reflexivity |].
    apply sample_length in Hs. rewrite Hs. apply length_replicate.
  - intros Hc1 fuel. apply mexFunction_count_below_one; try assumption. lra.
Qed.

(** C6, the code at the count [0.5]: the call is not rejected; it
    returns an empty vector. *)
Theorem count_one_half_not_rejected (env : environment) (fuel : nat) :
  mexFunction env fuel 1
    [double_scalar (Fin 0); double_scalar (Fin 1); double_scalar (Fin 0.5)]
  = Returned [].
Proof.
  pose proof PI_RGT_0.
  apply mexFunction_count_below_one; lra.
Qed.

(** What the validation does on finite double scalars: the call is
    aborted exactly when the mean is outside [[-pi, pi]], the concentration
    is negative, or the count, when given, is not positive; and the abort
    does not depend on the clock, the generator state or the fuel: nothing
    has been sampled. *)
Lemma validation_rejects_iff (env : environment) (fuel : nat)
    (mu kappa : R) (count : option R) :
  let prhs :=
    double_scalar (Fin mu) :: double_scalar (Fin kappa)
      :: match count with
         | Some c => [double_scalar (Fin c)]
         | None => []
         end in
  (exists id, mexFunction env fuel 1 prhs = MexError id)
  <-> (mu < - PI \/ PI < mu \/ kappa < 0
       \/ exists c, count = Some c /\ c <= 0).
Proof.
  intros prhs. subst prhs. unfold mexFunction.
  assert (Hn : forall rest : list mxArray,
             (length rest <= 1)%nat ->
             (negb (length (double_scalar (Fin mu)
                              :: double_scalar (Fin kappa) :: rest) =? 2)
              && negb (length (double_scalar (Fin mu)
                                 :: double_scalar (Fin kappa) :: rest) =? 3))%nat
             = false).
  { intros [| p2 [| p3 rest]] Hrest; simpl in *; try reflexivity. lia. }
  rewrite Hn by (destruct count; simpl; lia).
  cbn [Z.eqb negb Pos.eqb]. unfold double_scalar.
  cbn [mxIsDouble mxIsScalar mxGetScalar negb orb Double.lt Double.gt
       Double.neg Double.M_PI].
  destruct (Rltb mu (- PI)) eqn:H1; cbn [orb].
  { apply Rltb_true in H1.
    split; [intros _; left; exact H1 | intros _; eexists; reflexivity]. }
  destruct (Rltb PI mu) eqn:H2.
  { apply Rltb_true in H2.
    split; [intros _; right; left; exact H2
           | intros _; eexists; reflexivity]. }
  destruct (Rltb kappa 0) eqn:H3.
  { apply Rltb_true in H3.
    split; [intros _; right; right; left; exact H3
           | intros _; eexists; reflexivity]. }
  apply Rltb_false in H1, H2, H3.
  destruct count as [c |]; unfold read_numSamples.
  - cbn [mxIsDouble mxIsScalar mxGetScalar negb orb Double.le].
    destruct (Rleb c 0) eqn:H4.
    + apply Rleb_true in H4.
      split; [intros _ | intros _; eexists; reflexivity].
      right; right; right. eauto.
    + apply Rleb_false in H4. split.
      * intros [id Hid]. exfalso.
        destruct (Double.to_int (Fin c)) as [n |]; cbn [option_map] in Hid;
          [| discriminate].
        destruct (sample env fuel (Fin mu) (Fin kappa)
                    (replicate (Z.to_nat (to_mwSize n)) (Fin 0))
                    (to_mwSize n)); discriminate.
      * intros [H | [H | [H | (c' & Hc' & H)]]]; try lra.
        injection Hc' as <-. lra.
  - split.
    + intros [id Hid]. exfalso.
      destruct (sample env fuel (Fin mu) (Fin kappa)
                  (replicate (Z.to_nat 1) (Fin 0)) 1); discriminate.
    + intros [H | [H | [H | (c' & Hc' & _)]]]; try lra. discriminate.
Qed.

Lemma mexFunction_error_before_sampling (env env' : environment)
    (fuel fuel' : nat) (nlhs : Z) (prhs : list mxArray) (id : mexErrId) :
  mexFunction env fuel nlhs prhs = MexError id ->
  mexFunction env' fuel' nlhs prhs = MexError id.
Proof.
  unfold mexFunction.
  destruct (negb (length prhs =? 2)%nat && negb (length prhs =? 3)%nat);
    [auto |].
  destruct (negb (nlhs =? 1)%Z); [auto |].
  destruct prhs as [| p0 [| p1 rest]]; try auto.
  destruct (negb (mxIsDouble p0) || negb (mxIsScalar p0)
            || (mxGetScalar p0 <? - Double.M_PI)%D
            || (mxGetScalar p0 >? Double.M_PI)%D); [auto |].
  destruct (negb (mxIsDouble p1) || negb (mxIsScalar p1)
            || (mxGetScalar p1 <? Fin 0)%D); [auto |].
  destruct (read_numSamples rest) as [id' | [n |]]; try auto.
  destruct (sample env fuel (mxGetScalar p0) (mxGetScalar p1)
              (replicate (Z.to_nat n) (Fin 0)) n); discriminate.
Qed.

(** The comparisons of the first check are both false on a NaN: a mean
    that is not a number passes validation. *)
Lemma nan_mean_not_rejected (env : environment) (fuel : nat) :
  mexFunction env fuel 1 [double_scalar NaN; double_scalar (Fin 1)]
  = match sample env fuel NaN (Fin 1) [Fin 0] 1 with
    | Some angles => Returned angles
    | None => StillRunning
    end.
Proof.
  unfold mexFunction, double_scalar.
  cbn [length Nat.eqb negb andb Z.eqb Pos.eqb mxIsDouble mxIsScalar
       mxGetScalar orb Double.lt Double.gt Double.neg Double.M_PI].
  assert (H : Rltb 1 0 = false) by (apply Rltb_false; lra).
  rewrite H. reflexivity.
Qed.


End Sampler.

Arguments uniform RAND_MAX {prng} rand g.
Arguments loop_body RAND_MAX {prng} rand kappa samplingParameter g.
Arguments rejection_loop RAND_MAX {prng} rand fuel kappa samplingParameter g.
Arguments for_loop RAND_MAX {prng} rand fuel mu kappa samplingParameter
  todo i g angles.
Arguments accepted_angles RAND_MAX {prng} rand fuel kappa samplingParameter
  todo g.
Arguments accepts_eventually RAND_MAX {prng} rand kappa samplingParameter g.
Arguments sample RAND_MAX {prng} srand rand env fuel mu kappa angles
  numSamples.
Arguments mexFunction RAND_MAX {prng} srand rand env fuel nlhs prhs.

(** ** Worked generators

    With the GNU C library's [RAND_MAX = 2^31 - 1], the draw [2^30] is the
    one just above one half: [2 * u - 1 = 1 / RAND_MAX].  A generator
    that returns it at every call has each of its candidates accepted by
    the quadratic test, whatever the concentration. *)

Lemma near_half_ratio :
  let u := IZR 1073741824 / IZR glibc_RAND_MAX in
  0 < u <= 3 / 4 /\ (2 * u - 1) / u = / 1073741824.
Proof.
  unfold glibc_RAND_MAX. cbv zeta. split; [lra |]. field; lra.
Qed.

Lemma near_half_accepts (kappa : R) (g : nat) :
  0 <= kappa ->
  let u := IZR 1073741824 / IZR glibc_RAND_MAX in
  loop_body glibc_RAND_MAX (constant_rand 1073741824)
    (Fin kappa) (samplingParameter (Fin kappa)) g
  = (Break, Fin (spec_samplingParameter kappa * (2 * u - 1) / u), S (S g)).
Proof.
  intros Hk u.
  destruct near_half_ratio as [Hu Hx]. fold u in Hu, Hx.
  destruct (spec_samplingParameter_bounds kappa Hk) as [Hs Hks].
  set (s := spec_samplingParameter kappa) in *.
  assert (Ha : s * (2 * u - 1) / u = s * / 1073741824).
  { rewrite <- Hx. field. lra. }
  unfold loop_body.
  rewrite !uniform_finite by (unfold glibc_RAND_MAX; lia).
  cbn [constant_rand fst snd]. fold u.
  rewrite samplingParameter_refines. fold s.
  rewrite candidate_finite by lra.
  rewrite loop_tests_finite by lra.
  rewrite Ha.
  assert (Hsmall : 0 < s * / 1073741824 <= 1 / 1000) by lra.
  pose proof PI2_3_2 as Hpi.
  destruct (Rlt_dec PI (Rabs (s * / 1073741824))) as [Hout | _].
  { rewrite Rabs_pos_eq in Hout by lra. lra. }
  destruct (Rlt_dec (kappa * (s * / 1073741824) ^ 2) (4 - 4 * u))
    as [_ | Hno]; [reflexivity |].
  exfalso. apply Hno.
  replace (kappa * (s * / 1073741824) ^ 2)
    with (kappa * s ^ 2 * (/ 1073741824) ^ 2) by ring.
  assert (Hx2 : 0 <= (/ 1073741824) ^ 2 <= 1 / 1000) by lra.
  assert (Hks0 : 0 <= kappa * s ^ 2) by nra.
  nra.
Qed.

Lemma near_half_accepts_eventually (kappa : R) (g : nat) :
  0 <= kappa ->
  accepts_eventually glibc_RAND_MAX (constant_rand 1073741824)
    (Fin kappa) (samplingParameter (Fin kappa)) g.
Proof.
  intros Hk. apply accepts_now. rewrite near_half_accepts by exact Hk.
  reflexivity.
Qed.

Lemma map_replicate {A B : Type} (f : A -> B) (n : nat) (x : A) :
  map f (replicate n x) = replicate n (f x).
Proof. induction n as [| n IH]; simpl; [| rewrite IH]; reflexivity. Qed.

Lemma near_half_rejection_loop (fuel : nat) (kappa : R) (g : nat) :
  0 <= kappa ->
  let u := IZR 1073741824 / IZR glibc_RAND_MAX in
  rejection_loop glibc_RAND_MAX (constant_rand 1073741824) (S fuel)
    (Fin kappa) (samplingParameter (Fin kappa)) g
  = Some (Fin (spec_samplingParameter kappa * (2 * u - 1) / u), S (S g)).
Proof.
  intros Hk u. cbn [rejection_loop].
  rewrite near_half_accepts by exact Hk. reflexivity.
Qed.

Lemma near_half_accepted_angles (fuel : nat) (kappa : R) (todo g : nat) :
  0 <= kappa ->
  let u := IZR 1073741824 / IZR glibc_RAND_MAX in
  accepted_angles glibc_RAND_MAX (constant_rand 1073741824) (S fuel)
    (Fin kappa) (samplingParameter (Fin kappa)) todo g
  = Some (replicate todo
            (Fin (spec_samplingParameter kappa * (2 * u - 1) / u))).
Proof.
  intros Hk u. revert g.
  induction todo as [| todo IH]; intros g; [reflexivity |].
  cbn [accepted_angles].
  rewrite near_half_rejection_loop by exact Hk.
  rewrite IH. reflexivity.
Qed.

(** The whole of [sample] on that generator: every slot receives the same
    recentred angle. *)
Lemma near_half_sample (env : environment) (fuel : nat) (mu : double)
    (kappa : R) (n : nat) :
  0 <= kappa ->
  let u := IZR 1073741824 / IZR glibc_RAND_MAX in
  sample glibc_RAND_MAX constant_srand (constant_rand 1073741824) env
    (S fuel) mu (Fin kappa) (replicate n (Fin 0)) (Z.of_nat n)
  = Some (replicate n
            (recentre mu
               (Fin (spec_samplingParameter kappa * (2 * u - 1) / u)))).
Proof.
  intros Hk u. unfold sample. rewrite Nat2Z.id.
  rewrite for_loop_stores by (rewrite length_replicate; lia).
  rewrite near_half_accepted_angles by exact Hk.
  cbn [option_map]. rewrite map_replicate.
  rewrite take_0.
  replace (0 + n)%nat with (length (replicate n (Fin 0)))
    by (rewrite length_replicate; reflexivity).
  rewrite drop_all, app_nil_r. reflexivity.
Qed.

(** A generator on which the loop never leaves: with every draw equal
    to [RAND_MAX] both uniforms are [1], the candidate is the sampling
    parameter itself, the quadratic test fails ([4 - 4 * u1 = 0]) and,
    for [kappa = 1], the exact test rejects ([cos angle < 1]).  Termination
    is a property of the random source, not of the loop. *)
Lemma cos_lt_1 (x : R) : 0 < x < PI -> cos x < 1.
Proof.
  intros Hx. pose proof (cos_2a_sin (x / 2)) as H.
  replace (2 * (x / 2)) with x in H by field.
  assert (Hs : 0 < sin (x / 2)) by (apply sin_gt_0; lra).
  rewrite H. nra.
Qed.

Lemma all_ones_rejects (g : nat) :
  loop_body glibc_RAND_MAX (constant_rand glibc_RAND_MAX) (Fin 1)
    (samplingParameter (Fin 1)) g
  = (Continue, Fin (spec_samplingParameter 1), S (S g)).
Proof.
  assert (HR : (glibc_RAND_MAX <> 0)%Z) by (unfold glibc_RAND_MAX; lia).
  assert (Hone : IZR glibc_RAND_MAX / IZR glibc_RAND_MAX = 1)
    by (unfold glibc_RAND_MAX; field).
  unfold loop_body. rewrite !uniform_finite by exact HR.
  cbn [constant_rand fst snd]. rewrite Hone.
  rewrite samplingParameter_refines, candidate_finite by lra.
  replace (spec_samplingParameter 1 * (2 * 1 - 1) / 1)
    with (spec_samplingParameter 1) by field.
  rewrite loop_tests_finite by lra.
  assert (Hs : 0 < spec_samplingParameter 1 < PI).
  { unfold spec_samplingParameter.
    destruct (Rlt_dec 1.3 1); [lra |].
    pose proof PI_RGT_0. pose proof (exp_pos (Ropp 1)).
    pose proof (exp_increasing (Ropp 1) 0 ltac:(lra)) as Hexp.
    rewrite exp_0 in Hexp.
    split; nra. }
  set (s := spec_samplingParameter 1) in *.
  destruct (Rlt_dec PI (Rabs s)) as [Hout | _].
  { rewrite Rabs_pos_eq in Hout by lra. lra. }
  destruct (Rlt_dec (1 * s ^ 2) (4 - 4 * 1)) as [Hq | _]; [nra |].
  rewrite ln_1.
  destruct (Rlt_dec (1 * cos s) (2 * 0 + 1)) as [_ | Hno]; [reflexivity |].
  exfalso. apply Hno. pose proof (cos_lt_1 s Hs). lra.
Qed.

Lemma rejection_loop_may_spin (fuel g : nat) :
  rejection_loop glibc_RAND_MAX (constant_rand glibc_RAND_MAX) fuel
    (Fin 1) (samplingParameter (Fin 1)) g = None.
Proof.
  revert g. induction fuel as [| fuel IH]; intros g; [reflexivity |].
  cbn [rejection_loop]. rewrite all_ones_rejects. apply IH.
Qed.

(** * Instances

    The theorems above at concrete inputs: the GNU C library's
    [RAND_MAX], a generator whose every draw is [2^30] (or a scripted
    one), mean [0], concentration [2], seven samples. *)

Lemma loop_body_decides_witness :
  let u := IZR 1073741824 / IZR glibc_RAND_MAX in
  let angle := 1 * (2 * u - 1) / u in
  loop_body glibc_RAND_MAX (constant_rand 1073741824) (Fin 2) (Fin 1) 0%nat
    = (Break, Fin angle, 2%nat)
  <-> spec_decision 2 angle u Break.
Proof.
  apply (loop_body_decides glibc_RAND_MAX nat (constant_rand 1073741824)
           2 1 0%nat 1%nat 2%nat 1073741824 1073741824);
    [lra | reflexivity | reflexivity | reflexivity | reflexivity].
Defined.

Lemma emitted_sample_witness :
  let u := IZR 1073741824 / IZR glibc_RAND_MAX in
  let angle := Fin (spec_samplingParameter 2 * (2 * u - 1) / u) in
  exists accepted : list double,
    accepted_angles glibc_RAND_MAX (constant_rand 1073741824) 1 (Fin 2)
      (samplingParameter (Fin 2)) 7 0%nat = Some accepted
    /\ Forall (fun a =>
                 exists g0 g',
                   loop_body glibc_RAND_MAX (constant_rand 1073741824)
                     (Fin 2) (samplingParameter (Fin 2)) g0
                   = (Break, a, g'))
              accepted
    /\ replicate 7 (recentre (Fin 0) angle)
       = map (fun a =>
                Double.atan2 (Double.sin (a + Fin 0)%D)
                             (Double.cos (a + Fin 0)%D))
             accepted.
Proof.
  apply (emitted_sample glibc_RAND_MAX nat constant_srand
           (constant_rand 1073741824) example_env 1 (Fin 0) (Fin 2) 7
           (replicate 7 (Fin 0))).
  - reflexivity.
  - apply (near_half_sample example_env 0 (Fin 0) 2 7). lra.
Defined.

Lemma divisor_zero_iff_witness :
  (exists u1 : R,
      uniform glibc_RAND_MAX scripted_rand [0; 1000]%Z = (Fin u1, [1000%Z])
      /\ 0 <= u1 <= 1 /\ (u1 = 0 <-> 0%Z = 0%Z))
  /\ (exists angle : double,
         (angle = PInf \/ angle = NInf)
         /\ loop_body glibc_RAND_MAX scripted_rand (Fin 1) (Fin 1)
              [0; 1000]%Z = (Continue, angle, [])).
Proof.
  destruct (divisor_zero_iff glibc_RAND_MAX (list Z) scripted_rand
              (Fin 1) 1 [0; 1000]%Z [1000%Z] [] 0 1000)
    as [Hdraw Hretry];
    [reflexivity | reflexivity | reflexivity | unfold glibc_RAND_MAX; lia |].
  split; [exact Hdraw |].
  apply Hretry; [reflexivity | lra | unfold glibc_RAND_MAX; lia].
Defined.

(** [rand ()] may return [0]: the first draw of the iteration is then
    zero, the candidate is [s * (2 * u2 - 1) / 0], an infinity. *)
Lemma divisor_zero_counterexample :
  uniform glibc_RAND_MAX scripted_rand [0; 1000]%Z = (Fin 0, [1000%Z])
  /\ loop_body glibc_RAND_MAX scripted_rand (Fin 1)
       (samplingParameter (Fin 1)) [0; 1000]%Z
     = (Continue, NInf, []).
Proof.
  assert (HR : (glibc_RAND_MAX <> 0)%Z) by (unfold glibc_RAND_MAX; lia).
  assert (Hzero : IZR 0 / IZR glibc_RAND_MAX = 0) by (unfold Rdiv; ring).
  split.
  - rewrite uniform_finite by exact HR. cbn [scripted_rand fst snd].
    rewrite Hzero. reflexivity.
  - unfold loop_body. rewrite !uniform_finite by exact HR.
    cbn [scripted_rand fst snd]. rewrite Hzero.
    rewrite samplingParameter_refines, candidate_zero_divisor.
    destruct (spec_samplingParameter_bounds 1) as [[Hs _] _]; [lra |].
    destruct (signed_inf_cases
                (spec_samplingParameter 1
                 * (2 * (IZR 1000 / IZR glibc_RAND_MAX) - 1)))
      as [[Hpos _] | [[_ ->] | [Hnull _]]].
    + exfalso. unfold glibc_RAND_MAX in Hpos. nra.
    + reflexivity.
    + exfalso. unfold glibc_RAND_MAX in Hnull. nra.
Qed.

Lemma output_length_witness :
  exists fuel out,
    mexFunction glibc_RAND_MAX constant_srand (constant_rand 1073741824)
      example_env fuel 1
      [double_scalar (Fin 0); double_scalar (Fin 2);
       double_scalar (Double.of_int 7)]
    = Returned out
    /\ length out = 7%nat.
Proof.
  pose proof PI_RGT_0 as Hpi.
  destruct (output_length glibc_RAND_MAX nat constant_srand
              (constant_rand 1073741824) example_env 0 2 (Some 7%Z))
    as [_ Hreturns]; [lra | lra | |].
  - intros n Hn. injection Hn as <-. unfold Double.INT_MAX. lia.
  - apply Hreturns. intros g. apply near_half_accepts_eventually. lra.
Defined.

Lemma fractional_count_witness :
  exists fuel out,
    mexFunction glibc_RAND_MAX constant_srand (constant_rand 1073741824)
      example_env fuel 1
      [double_scalar (Fin 0); double_scalar (Fin 2);
       double_scalar (Fin 2.5)]
    = Returned out
    /\ length out = Z.to_nat (Rtrunc 2.5).
Proof.
  pose proof PI_RGT_0 as Hpi.
  destruct (fractional_count glibc_RAND_MAX nat constant_srand
              (constant_rand 1073741824) example_env 0 2 2.5)
    as (_ & Hreturns & _); [lra | lra | lra |].
  apply Hreturns. intros g. apply near_half_accepts_eventually. lra.
Defined.

(** A count of [2^31] passes the check [<= 0] and reaches the conversion
    [(int)], which is undefined for it: no sequence of length [trunc c]
    is promised. *)
Lemma fractional_count_counterexample :
  mexFunction glibc_RAND_MAX constant_srand (constant_rand 1073741824)
    example_env 1 1
    [double_scalar (Fin 0); double_scalar (Fin 1);
     double_scalar (Fin 2147483648)]
  = Undefined.
Proof.
  pose proof PI_RGT_0 as Hpi.
  rewrite mexFunction_checked by (simpl; lra || lia).
  unfold read_numSamples, double_scalar.
  cbn [mxIsDouble mxIsScalar mxGetScalar negb orb Double.le].
  assert (Hle : Rleb 2147483648 0 = false) by (apply Rleb_false; lra).
  rewrite Hle, to_int_too_large by lra. reflexivity.
Qed.







(** * Further properties of the source

    What the two functions do beyond the claims of the specification:
    the meaning of the tests of the loop, the degenerate concentrations,
    the order of the checks of [mexFunction] and the frame of the output
    array. *)

(** ** The tests of the loop body (source lines 73-89) *)

Lemma ln_le_sub_1 (u : R) : 0 < u -> ln u <= u - 1.
Proof.
  intros Hu. pose proof (exp_ineq1_le (ln u)) as H.
  rewrite exp_ln in H by exact Hu. lra.
Qed.

(** X3: the loop treats the two sides of zero alike: the three tests read
    the candidate through [fabs (angle)], [pow (angle, 2)] and
    [cos (angle)] only, so a candidate and its opposite get the same
    verdict, whatever the concentration and the first draw, special values
    included. *)
Theorem loop_tests_even (kappa angle u1 : double) :
  loop_tests kappa (- angle)%D u1 = loop_tests kappa angle u1.
Proof.
  destruct angle as [a | | |]; try reflexivity.
  unfold loop_tests.
  cbn [Double.neg Double.fabs Double.pow Double.cos].
  rewrite Rabs_Ropp, cos_neg.
  replace (Fin (- a) * (Fin (- a) * Fin 1))%D
    with (Fin a * (Fin a * Fin 1))%D
    by (cbn [Double.mul]; f_equal; ring).
  reflexivity.
Qed.

(** X4: with concentration zero only the range test rejects: for a first
    draw [0 < u1 <= 1], a pass leaves the loop exactly when
    [|angle| <= pi]. *)
Theorem zero_concentration_accepts_in_range (a u1 : R) :
  0 < u1 <= 1 ->
  loop_tests (Fin 0) (Fin a) (Fin u1) = Break <-> Rabs a <= PI.
Proof.
  intros [Hu0 Hu1]. rewrite loop_tests_finite by exact Hu0.
  pose proof (ln_le_sub_1 u1 Hu0) as Hln.
  destruct (Rlt_dec PI (Rabs a)) as [Hout | Hin].
  { split; [discriminate | lra]. }
  destruct (Rlt_dec (0 * a ^ 2) (4 - 4 * u1)) as [Hq | Hq].
  { split; [lra | reflexivity]. }
  destruct (Rlt_dec (0 * cos a) (2 * ln u1 + 0)) as [Hx | Hx].
  - exfalso. lra.
  - split; [lra | reflexivity].
Qed.

Lemma zero_concentration_accepts_in_range_witness :
  loop_tests (Fin 0) (Fin 3) (Fin 1) = Break <-> Rabs 3 <= PI.
Proof.
  apply (zero_concentration_accepts_in_range 3 1); lra.
Defined.

(** ** The sampling parameter (source lines 56-62) *)

(** X6: for every concentration [kappa >= 0] the sampling parameter is a
    finite number in [(0, pi]], never zero, an infinity or a NaN. *)
Theorem samplingParameter_in_range (kappa : R) :
  0 <= kappa ->
  exists s : R, samplingParameter (Fin kappa) = Fin s /\ 0 < s <= PI.
Proof.
  intros Hk. exists (spec_samplingParameter kappa).
  split; [apply samplingParameter_refines |].
  pose proof PI2_3_2 as Hpi3.
  unfold spec_samplingParameter.
  destruct (Rlt_dec 1.3 kappa) as [Hhigh | Hlow].
  - assert (Hroot : 1 < sqrt kappa).
    { rewrite <- sqrt_1 at 1. apply sqrt_lt_1; lra. }
    assert (Hinv : 0 < 1 / sqrt kappa < 1).
    { split.
      - apply Rdiv_lt_0_compat; lra.
      - apply Rmult_lt_reg_r with (sqrt kappa); [lra |].
        replace (1 / sqrt kappa * sqrt kappa) with 1 by (field; lra). lra. }
    lra.
  - assert (Hexp : 0 < exp (- kappa) <= 1).
    { split; [apply exp_pos |].
      destruct Hk as [Hk | <-].
      - rewrite <- exp_0. apply Rlt_le, exp_increasing. lra.
      - rewrite Ropp_0, exp_0. lra. }
    split; nra.
Qed.

Lemma samplingParameter_in_range_witness :
  exists s : R, samplingParameter (Fin 2) = Fin s /\ 0 < s <= PI.
Proof.
  apply (samplingParameter_in_range 2). lra.
Defined.

Lemma map_constant {A B : Type} (f : A -> B) (b : B) (l : list A) :
  (forall x, f x = b) -> map f l = replicate (length l) b.
Proof.
  intros Hf. induction l as [| x l IH]; simpl; [| rewrite Hf, IH];
    reflexivity.
Qed.

Lemma recentre_nan_mean (angle : double) : recentre NaN angle = NaN.
Proof. destruct angle; reflexivity. Qed.

Lemma recentre_nan_angle (mu : double) : recentre mu NaN = NaN.
Proof. reflexivity. Qed.

Lemma samplingParameter_infinite : samplingParameter PInf = Fin 0.
Proof. reflexivity. Qed.

Lemma samplingParameter_nan : samplingParameter NaN = NaN.
Proof. reflexivity. Qed.

(** At infinite concentration the candidate [0] passes whatever positive
    draw it came with: the quadratic test compares a NaN, the exact test
    compares plus infinity with itself. *)
Lemma loop_tests_infinite_concentration (u1 : R) :
  0 < u1 -> loop_tests PInf (Fin 0) (Fin u1) = Break.
Proof.
  intros Hu. unfold loop_tests.
  rewrite log_finite, pow_2_finite by exact Hu.
  cbn [Double.fabs Double.gt Double.lt Double.M_PI Double.mul Double.cos
       Double.add Double.sub Double.neg].
  assert (Hr : Rltb PI (Rabs 0) = false).
  { apply Rltb_false. rewrite Rabs_R0. pose proof PI_RGT_0. lra. }
  rewrite Hr.
  assert (Hq : Double.signed_inf (0 ^ 2) = NaN).
  { unfold Double.signed_inf.
    destruct (Rlt_dec 0 (0 ^ 2)); [exfalso; lra |].
    destruct (Rlt_dec (0 ^ 2) 0); [exfalso; lra | reflexivity]. }
  rewrite Hq.
  assert (Hc : Double.signed_inf (cos 0) = PInf).
  { unfold Double.signed_inf. rewrite cos_0.
    destruct (Rlt_dec 0 1); [reflexivity | exfalso; lra]. }
  rewrite Hc. reflexivity.
Qed.

Lemma loop_tests_nan (u1 : double) : loop_tests NaN NaN u1 = Break.
Proof. reflexivity. Qed.

Lemma candidate_nan (u1 u2 : double) : candidate NaN u1 u2 = NaN.
Proof. reflexivity. Qed.

Section Coverage.

Variable RAND_MAX : Z.
Variable prng : Type.
Variable srand : Z -> prng.
Variable rand : prng -> Z * prng.

(** ** The rejection loop (source lines 64-90) *)

(** X7: what the rejection loop hands to the recentring step is a finite
    angle of absolute value at most [pi], for every finite concentration
    and every generator ([RAND_MAX] odd). *)
Theorem accepted_angle_in_range (fuel : nat) (kappa : R) (g g' : prng)
    (angle : double) :
  Z.odd RAND_MAX = true ->
  rejection_loop RAND_MAX rand fuel (Fin kappa)
    (samplingParameter (Fin kappa)) g = Some (angle, g') ->
  exists a : R, angle = Fin a /\ Rabs a <= PI.
Proof.
  intros Hodd Hloop.
  apply rejection_loop_accepted in Hloop as [g0 Hbody].
  eapply loop_body_break_finite; eassumption.
Qed.

(** A loop that returns has made twice as many calls of [rand ()] as it
    has made passes. *)
Lemma loop_body_draws (kappa s : double) (g : prng) :
  (loop_body RAND_MAX rand kappa s g).2 = (rand (rand g).2).2.
Proof.
  unfold loop_body, uniform.
  destruct (rand g) as [r1 g1]. cbn [snd].
  destruct (rand g1) as [r2 g2]. reflexivity.
Qed.

(** X8: every pass of the loop calls [rand ()] twice: a loop that returns
    after some number of passes, at least one and at most the fuel,
    leaves the generator exactly that many pairs of draws further. *)
Theorem rejection_loop_draws (fuel : nat) (kappa s : double) (g g' : prng)
    (angle : double) :
  rejection_loop RAND_MAX rand fuel kappa s g = Some (angle, g') ->
  exists passes : nat,
    (1 <= passes <= fuel)%nat
    /\ g' = Nat.iter (2 * passes) (fun g0 => (rand g0).2) g.
Proof.
  revert g. induction fuel as [| fuel IH]; intros g H; [discriminate |].
  cbn [rejection_loop] in H.
  pose proof (loop_body_draws kappa s g) as Hdraws.
  destruct (loop_body RAND_MAX rand kappa s g) as [[[] a] g1];
    cbn [snd] in Hdraws.
  - injection H as _ <-. exists 1%nat. split; [lia |].
    subst g1. reflexivity.
  - apply IH in H as (passes & Hpasses & ->).
    exists (S passes). split; [lia |]. subst g1.
    replace (2 * S passes)%nat with (2 * passes + 2)%nat by lia.
    rewrite Nat.iter_add. reflexivity.
Qed.

(** ** [sample] (source lines 44-94) *)

(** X9: [sample] writes the first [numSamples] entries of [angles] and
    nothing else: the array keeps its length and every entry from index
    [numSamples] on. *)
Theorem sample_frame (env : environment) (fuel : nat) (mu kappa : double)
    (numSamples : Z) (angles out : list double) :
  (Z.to_nat numSamples <= length angles)%nat ->
  sample RAND_MAX srand rand env fuel mu kappa angles numSamples
    = Some out ->
  length out = length angles
  /\ drop (Z.to_nat numSamples) out = drop (Z.to_nat numSamples) angles.
Proof.
  intros Hlen Hsample. split.
  { eapply sample_length. exact Hsample. }
  unfold sample in Hsample. rewrite for_loop_stores in Hsample by lia.
  destruct (accepted_angles RAND_MAX rand fuel kappa
              (samplingParameter kappa) (Z.to_nat numSamples)
              (srand (seed env))) as [accepted |] eqn:Hacc;
    [| discriminate].
  injection Hsample as <-. cbn [app Nat.add].
  apply accepted_angles_length in Hacc.
  rewrite <- Hacc at 1. rewrite <- (length_map (recentre mu)).
  apply drop_app_length.
Qed.

(** X10: a NaN mean makes every sample a NaN: whatever the concentration
    and the draws, the array [sample] returns holds nothing else. *)
Theorem nan_mean_gives_nan_samples (env : environment) (fuel : nat)
    (kappa : double) (numSamples : Z) (angles out : list double) :
  length angles = Z.to_nat numSamples ->
  sample RAND_MAX srand rand env fuel NaN kappa angles numSamples
    = Some out ->
  out = replicate (Z.to_nat numSamples) NaN.
Proof.
  intros Hlen Hsample.
  unfold sample in Hsample. rewrite for_loop_stores in Hsample by lia.
  destruct (accepted_angles RAND_MAX rand fuel kappa
              (samplingParameter kappa) (Z.to_nat numSamples)
              (srand (seed env))) as [accepted |] eqn:Hacc;
    [| discriminate].
  injection Hsample as <-. cbn [app Nat.add].
  rewrite <- Hlen, drop_all, app_nil_r.
  rewrite (map_constant _ NaN) by apply recentre_nan_mean.
  apply accepted_angles_length in Hacc. rewrite Hacc, Hlen. reflexivity.
Qed.

Lemma rejection_loop_nan_concentration (fuel : nat) (g : prng) :
  rejection_loop RAND_MAX rand (S fuel) NaN (samplingParameter NaN) g
  = Some (NaN, (rand (rand g).2).2).
Proof.
  cbn [rejection_loop]. rewrite <- (loop_body_draws NaN NaN g).
  unfold loop_body. rewrite samplingParameter_nan.
  destruct (uniform RAND_MAX rand g) as [u1 g1].
  destruct (uniform RAND_MAX rand g1) as [u2 g2].
  rewrite candidate_nan, loop_tests_nan. reflexivity.
Qed.

(** X11: a NaN concentration stops every rejection loop at its first
    pass, whatever is drawn: [sample] returns as soon as it has fuel for
    one pass, and every sample is a NaN. *)
Theorem nan_concentration_gives_nan_samples (env : environment)
    (fuel : nat) (mu : double) (numSamples : Z) (angles : list double) :
  length angles = Z.to_nat numSamples ->
  sample RAND_MAX srand rand env (S fuel) mu NaN angles numSamples
  = Some (replicate (Z.to_nat numSamples) NaN).
Proof.
  intros Hlen. unfold sample. rewrite for_loop_stores by lia.
  assert (Hacc : forall todo g,
             accepted_angles RAND_MAX rand (S fuel) NaN
               (samplingParameter NaN) todo g
             = Some (replicate todo NaN)).
  { induction todo as [| todo IH]; intros g; [reflexivity |].
    cbn [accepted_angles].
    rewrite rejection_loop_nan_concentration, IH. reflexivity. }
  rewrite Hacc. cbn [option_map]. rewrite take_0. cbn [app Nat.add].
  rewrite <- Hlen, drop_all, app_nil_r.
  rewrite map_replicate, recentre_nan_angle. reflexivity.
Qed.

Lemma rejection_loop_infinite_concentration (fuel : nat) (g : prng) :
  (0 < RAND_MAX)%Z ->
  (0 < (rand g).1)%Z ->
  rejection_loop RAND_MAX rand (S fuel) PInf (samplingParameter PInf) g
  = Some (Fin 0, (rand (rand g).2).2).
Proof.
  intros HR Hr1. cbn [rejection_loop].
  rewrite <- (loop_body_draws PInf (Fin 0) g).
  unfold loop_body. rewrite samplingParameter_infinite.
  rewrite !uniform_finite by lia.
  assert (Hu1 : 0 < IZR (rand g).1 / IZR RAND_MAX).
  { apply Rdiv_lt_0_compat; apply IZR_lt; assumption. }
  rewrite candidate_finite by lra.
  set (u1 := IZR (rand g).1 / IZR RAND_MAX) in *.
  set (u2 := IZR (rand (rand g).2).1 / IZR RAND_MAX).
  replace (0 * (2 * u2 - 1) / u1) with 0 by (field; lra).
  rewrite loop_tests_infinite_concentration by exact Hu1. reflexivity.
Qed.

(** X12: at infinite concentration the sampler returns the recentred
    mean: when [rand ()] never returns [0], every rejection loop accepts
    the candidate [0] at its first pass and every sample is
    [atan2 (sin (mu), cos (mu))]. *)
Theorem infinite_concentration_gives_recentred_mean (env : environment)
    (fuel : nat) (mu : double) (numSamples : Z) (angles : list double) :
  (0 < RAND_MAX)%Z ->
  (forall g, 0 < (rand g).1)%Z ->
  length angles = Z.to_nat numSamples ->
  sample RAND_MAX srand rand env (S fuel) mu PInf angles numSamples
  = Some (replicate (Z.to_nat numSamples)
            (Double.atan2 (Double.sin mu) (Double.cos mu))).
Proof.
  intros HR Hdraws Hlen. unfold sample.
  rewrite for_loop_stores by lia.
  assert (Hacc : forall todo g,
             accepted_angles RAND_MAX rand (S fuel) PInf
               (samplingParameter PInf) todo g
             = Some (replicate todo (Fin 0))).
  { induction todo as [| todo IH]; intros g; [reflexivity |].
    cbn [accepted_angles].
    rewrite rejection_loop_infinite_concentration, IH by auto.
    reflexivity. }
  rewrite Hacc. cbn [option_map]. rewrite take_0. cbn [app Nat.add].
  rewrite <- Hlen, drop_all, app_nil_r.
  rewrite map_replicate. unfold recentre.
  replace (Fin 0 + mu)%D with mu; [reflexivity |].
  destruct mu as [m | | |]; try reflexivity.
  cbn [Double.add]. f_equal. ring.
Qed.

(** ** [mexFunction] (source lines 97-163) *)

(** X13: the two argument counts are checked before anything is read:
    the call aborts with the identifier [nrhs] exactly when it has
    neither two nor three inputs, and with the identifier [nlhs] exactly
    when the inputs are two or three and the outputs are not one,
    whatever the arguments hold. *)
Theorem argument_counts_checked_first (env : environment) (fuel : nat)
    (nlhs : Z) (prhs : list mxArray) :
  (mexFunction RAND_MAX srand rand env fuel nlhs prhs = MexError err_nrhs
   <-> length prhs <> 2%nat /\ length prhs <> 3%nat)
  /\ (mexFunction RAND_MAX srand rand env fuel nlhs prhs = MexError err_nlhs
      <-> (length prhs = 2%nat \/ length prhs = 3%nat) /\ nlhs <> 1%Z).
Proof.
  unfold mexFunction.
  destruct (Nat.eqb_spec (length prhs) 2) as [H2 | H2];
    destruct (Nat.eqb_spec (length prhs) 3) as [H3 | H3];
    cbn [negb andb]; try (exfalso; lia);
    try (split; split; [intros _; auto | reflexivity
                       | discriminate | intros [[? | ?] _]; contradiction]).
  all: destruct (Z.eqb_spec nlhs 1) as [Hl | Hl]; cbn [negb];
    try (split; split; [discriminate | intros [? ?]; contradiction
                       | intros _; auto | reflexivity]).
  all: destruct prhs as [| p0 [| p1 rest]]; try discriminate.
  all: destruct (negb (mxIsDouble p0) || negb (mxIsScalar p0)
                 || (mxGetScalar p0 <? - Double.M_PI)%D
                 || (mxGetScalar p0 >? Double.M_PI)%D);
    [split; split; try discriminate; intros [? ?]; contradiction |].
  all: destruct (negb (mxIsDouble p1) || negb (mxIsScalar p1)
                 || (mxGetScalar p1 <? Fin 0)%D);
    [split; split; try discriminate; intros [? ?]; contradiction |].
  all: assert (Hread : forall id, read_numSamples rest = inl id ->
                         id = err_notIntPositiveScalar).
  all: try (intros id; unfold read_numSamples;
            destruct rest as [| p2 rest']; [discriminate |];
            destruct (negb (mxIsDouble p2) || negb (mxIsScalar p2)
                      || (mxGetScalar p2 <=? Fin 0)%D);
            [intros H; injection H as <-; reflexivity | discriminate]).
  all: destruct (read_numSamples rest) as [id | [n |]];
    [specialize (Hread id eq_refl); subst id | |];
    try destruct (sample RAND_MAX srand rand env fuel (mxGetScalar p0)
                    (mxGetScalar p1) (replicate (Z.to_nat n) (Fin 0)) n);
    split; split; try discriminate; intros [? ?]; contradiction.
Qed.

Ltac decide_comparisons :=
  repeat match goal with
    | |- context [Rltb ?a ?b] =>
        let H := fresh "Hcmp" in
        destruct (Rltb a b) eqn:H;
        [apply Rltb_true in H | apply Rltb_false in H]
    | |- context [Rleb ?a ?b] =>
        let H := fresh "Hcmp" in
        destruct (Rleb a b) eqn:H;
        [apply Rleb_true in H | apply Rleb_false in H]
    end.

Ltac not_an_error H :=
  repeat match type of H with
    | context [match ?x with _ => _ end] => destruct x
    end;
  discriminate H.

(** X14: the validation on double scalars of any value, special ones
    included.  The call aborts exactly when the mean is an infinity or a
    number outside [[-pi, pi]], or the concentration is minus infinity or
    a negative number, or the count is given and is minus infinity or a
    number that is not positive.  A NaN passes every check, and so does a
    concentration or a count of plus infinity. *)
Theorem validation_on_all_doubles (env : environment) (fuel : nat)
    (mu kappa : double) (count : option double) :
  (exists id,
      mexFunction RAND_MAX srand rand env fuel 1
        (double_scalar mu :: double_scalar kappa
           :: match count with
              | Some c => [double_scalar c]
              | None => []
              end) = MexError id)
  <-> match mu with
      | Fin r => r < - PI \/ PI < r
      | NaN => False
      | _ => True
      end
      \/ match kappa with
         | Fin r => r < 0
         | NInf => True
         | _ => False
         end
      \/ match count with
         | Some (Fin r) => r <= 0
         | Some NInf => True
         | _ => False
         end.
Proof.
  unfold mexFunction, read_numSamples, double_scalar.
  destruct mu as [m | | |], kappa as [k | | |],
    count as [[c | | |] |];
    cbn [length Nat.eqb negb andb orb Z.eqb Pos.eqb mxIsDouble mxIsScalar
         mxGetScalar Double.lt Double.gt Double.le Double.neg Double.M_PI];
    decide_comparisons;
    cbn [orb];
    (split;
     [ intros [id Hid];
       first [ solve [intuition lra] | exfalso; not_an_error Hid ]
     | intros Hrej;
       first [ solve [eexists; reflexivity] | exfalso; intuition lra ] ]).
Qed.

(** The count that leaves the validation is a number of samples that an
    [int] holds. *)
Lemma read_numSamples_range (rest : list mxArray) (numSamples : Z) :
  read_numSamples rest = inr (Some numSamples) ->
  (0 <= numSamples <= Double.INT_MAX)%Z.
Proof.
  unfold read_numSamples. destruct rest as [| p2 rest'].
  { intros H. injection H as <-. unfold Double.INT_MAX. lia. }
  destruct (negb (mxIsDouble p2) || negb (mxIsScalar p2)) ; [discriminate |].
  cbn [orb]. destruct (mxGetScalar p2) as [c | | |]; try discriminate.
  cbn [Double.le]. destruct (Rleb c 0) eqn:Hc; [discriminate |].
  apply Rleb_false in Hc. unfold Double.to_int.
  rewrite Rtrunc_nonneg by lra.
  assert (Hlo : (0 <= Zfloor c)%Z) by (apply Zfloor_lub; simpl; lra).
  destruct (Double.INT_MIN <=? Zfloor c)%Z; [| discriminate].
  destruct (Z.leb_spec (Zfloor c) Double.INT_MAX) as [Hhi | Hhi];
    [| discriminate].
  cbn [andb option_map]. intros H. injection H as <-.
  rewrite to_mwSize_small by lia. lia.
Qed.

(** X15: for a mean and a concentration that pass their checks, the
    conversion of the count is undefined exactly when the count is a
    NaN, plus infinity, or a number of at least [2^31]; every other count
    is either rejected or converted. *)
Theorem count_conversion_undefined_iff (env : environment) (fuel : nat)
    (mu kappa : R) (c : double) :
  - PI <= mu <= PI ->
  0 <= kappa ->
  mexFunction RAND_MAX srand rand env fuel 1
    [double_scalar (Fin mu); double_scalar (Fin kappa); double_scalar c]
  = Undefined
  <-> match c with
      | Fin r => 2147483648 <= r
      | PInf | NaN => True
      | NInf => False
      end.
Proof.
  intros Hmu Hkappa.
  rewrite mexFunction_checked by (assumption || (simpl; lia)).
  unfold read_numSamples, double_scalar.
  cbn [mxIsDouble mxIsScalar mxGetScalar negb orb].
  destruct c as [r | | |]; cbn [Double.le Double.to_int option_map];
    try (split; [intros _; exact I | reflexivity]);
    try (split; [discriminate | contradiction]).
  destruct (Rleb r 0) eqn:Hr.
  { apply Rleb_true in Hr. split; [discriminate | lra]. }
  apply Rleb_false in Hr.
  destruct (Rlt_dec r 2147483648) as [Hsmall | Hlarge].
  - destruct (to_int_in_range r) as [Hint _]; [lra |].
    unfold Double.to_int in Hint. rewrite Hint. cbn [option_map].
    split; [| lra].
    destruct (sample RAND_MAX srand rand env fuel (Fin mu) (Fin kappa)
                (replicate (Z.to_nat (to_mwSize (Rtrunc r))) (Fin 0))
                (to_mwSize (Rtrunc r))); discriminate.
  - pose proof (to_int_too_large r ltac:(lra)) as Hint.
    unfold Double.to_int in Hint. rewrite Hint.
    split; [intros _; lra | reflexivity].
Qed.

(** X16: whatever the arguments, a vector that [mexFunction] returns has
    at most [INT_MAX] entries: the count reaches the allocation through
    an [int] that the validation has made positive, so its conversion to
    [mwSize] never wraps. *)
Theorem returned_length_bounded (env : environment) (fuel : nat)
    (nlhs : Z) (prhs : list mxArray) (out : list double) :
  mexFunction RAND_MAX srand rand env fuel nlhs prhs = Returned out ->
  (Z.of_nat (length out) <= Double.INT_MAX)%Z.
Proof.
  unfold mexFunction.
  destruct (negb (length prhs =? 2)%nat && negb (length prhs =? 3)%nat);
    [discriminate |].
  destruct (negb (nlhs =? 1)%Z); [discriminate |].
  destruct prhs as [| p0 [| p1 rest]]; try discriminate.
  destruct (negb (mxIsDouble p0) || negb (mxIsScalar p0)
            || (mxGetScalar p0 <? - Double.M_PI)%D
            || (mxGetScalar p0 >? Double.M_PI)%D); [discriminate |].
  destruct (negb (mxIsDouble p1) || negb (mxIsScalar p1)
            || (mxGetScalar p1 <? Fin 0)%D); [discriminate |].
  destruct (read_numSamples rest) as [id | [n |]] eqn:Hread;
    try discriminate.
  apply read_numSamples_range in Hread.
  destruct (sample RAND_MAX srand rand env fuel (mxGetScalar p0)
              (mxGetScalar p1) (replicate (Z.to_nat n) (Fin 0)) n)
    as [angles |] eqn:Hsample; [| discriminate].
  intros H. injection H as <-.
  apply sample_length in Hsample.
  rewrite Hsample, length_replicate. lia.
Qed.

(** X17: the bound on the samples, at the interface: when the mean and
    the concentration are finite numbers, every entry of a vector that
    [mexFunction] returns is a finite number of the closed interval
    [[-pi, pi]], whatever the count is ([RAND_MAX] odd). *)
Theorem returned_samples_bounded (env : environment) (fuel : nat)
    (nlhs : Z) (p0 p1 : mxArray) (rest : list mxArray) (mu kappa : R)
    (out : list double) :
  Z.odd RAND_MAX = true ->
  mxGetScalar p0 = Fin mu ->
  mxGetScalar p1 = Fin kappa ->
  mexFunction RAND_MAX srand rand env fuel nlhs (p0 :: p1 :: rest)
    = Returned out ->
  Forall (fun x : double => exists r : R, x = Fin r /\ - PI <= r <= PI)
         out.
Proof.
  intros Hodd Hmu Hkappa. unfold mexFunction.
  destruct (negb (length (p0 :: p1 :: rest) =? 2)%nat
            && negb (length (p0 :: p1 :: rest) =? 3)%nat);
    [discriminate |].
  destruct (negb (nlhs =? 1)%Z); [discriminate |].
  destruct (negb (mxIsDouble p0) || negb (mxIsScalar p0)
            || (mxGetScalar p0 <? - Double.M_PI)%D
            || (mxGetScalar p0 >? Double.M_PI)%D); [discriminate |].
  destruct (negb (mxIsDouble p1) || negb (mxIsScalar p1)
            || (mxGetScalar p1 <? Fin 0)%D); [discriminate |].
  destruct (read_numSamples rest) as [id | [n |]]; try discriminate.
  rewrite Hmu, Hkappa. unfold sample.
  rewrite for_loop_stores by (rewrite length_replicate; lia).
  destruct (accepted_angles RAND_MAX rand fuel (Fin kappa)
              (samplingParameter (Fin kappa)) (Z.to_nat n)
              (srand (seed env))) as [accepted |] eqn:Hacc;
    [| discriminate].
  cbn [option_map]. intros H. injection H as <-.
  cbn [app Nat.add].
  replace (drop (Z.to_nat n) (replicate (Z.to_nat n) (Fin 0)))
    with (@nil double)
    by (symmetry; apply drop_ge; rewrite length_replicate; lia).
  rewrite app_nil_r.
  apply accepted_angles_accepted in Hacc.
  rewrite Forall_map.
  eapply Forall_impl; [exact Hacc |].
  intros angle (g0 & g' & Hbody). cbn beta.
  apply loop_body_break_finite in Hbody as (a & -> & _); [| exact Hodd].
  rewrite recentre_finite.
  pose proof (atan2R_range (sin (a + mu)) (cos (a + mu))) as Hr.
  eexists. split; [reflexivity | lra].
Qed.

(** X18: an abort is decided before the generator is seeded: a call that
    aborts with some identifier aborts with the same identifier under any
    other clock, generator and fuel. *)
Theorem abort_precedes_sampling (env env' : environment)
    (fuel fuel' : nat) (nlhs : Z) (prhs : list mxArray) (id : mexErrId)
    (RAND_MAX' : Z) (prng' : Type) (srand' : Z -> prng')
    (rand' : prng' -> Z * prng') :
  mexFunction RAND_MAX srand rand env fuel nlhs prhs = MexError id ->
  mexFunction RAND_MAX' srand' rand' env' fuel' nlhs prhs = MexError id.
Proof.
  unfold mexFunction.
  destruct (negb (length prhs =? 2)%nat && negb (length prhs =? 3)%nat);
    [auto |].
  destruct (negb (nlhs =? 1)%Z); [auto |].
  destruct prhs as [| p0 [| p1 rest]]; try auto.
  destruct (negb (mxIsDouble p0) || negb (mxIsScalar p0)
            || (mxGetScalar p0 <? - Double.M_PI)%D
            || (mxGetScalar p0 >? Double.M_PI)%D); [auto |].
  destruct (negb (mxIsDouble p1) || negb (mxIsScalar p1)
            || (mxGetScalar p1 <? Fin 0)%D); [auto |].
  destruct (read_numSamples rest) as [id' | [n |]]; try auto.
  destruct (sample RAND_MAX srand rand env fuel (mxGetScalar p0)
              (mxGetScalar p1) (replicate (Z.to_nat n) (Fin 0)) n);
    discriminate.
Qed.

End Coverage.

(** ** Instances of the further properties *)

(** The near-half generator on an array one entry longer than the count:
    the last entry is not written. *)
Lemma near_half_sample_longer (env : environment) (fuel : nat)
    (mu : double) (kappa : R) (n : nat) (spare : double) :
  0 <= kappa ->
  let u := IZR 1073741824 / IZR glibc_RAND_MAX in
  sample glibc_RAND_MAX constant_srand (constant_rand 1073741824) env
    (S fuel) mu (Fin kappa) (replicate n (Fin 0) ++ [spare]) (Z.of_nat n)
  = Some (replicate n
            (recentre mu
               (Fin (spec_samplingParameter kappa * (2 * u - 1) / u)))
          ++ [spare]).
Proof.
  intros Hk u. unfold sample. rewrite Nat2Z.id.
  rewrite for_loop_stores
    by (rewrite length_app, length_replicate; simpl; lia).
  rewrite near_half_accepted_angles by exact Hk.
  cbn [option_map]. rewrite map_replicate, take_0. cbn [app Nat.add].
  do 2 f_equal.
  rewrite <- (length_replicate n (Fin 0)) at 1.
  apply drop_app_length.
Qed.

Lemma near_half_mexFunction (env : environment) (fuel : nat) :
  let u := IZR 1073741824 / IZR glibc_RAND_MAX in
  mexFunction glibc_RAND_MAX constant_srand (constant_rand 1073741824) env
    (S fuel) 1
    [double_scalar (Fin 0); double_scalar (Fin 2);
     double_scalar (Double.of_int 7)]
  = Returned
      (replicate 7
         (recentre (Fin 0)
            (Fin (spec_samplingParameter 2 * (2 * u - 1) / u)))).
Proof.
  intros u. pose proof PI_RGT_0 as Hpi.
  rewrite (mexFunction_valid _ _ _ _ _ _ 0 2 _ 7); try lra.
  - pose proof (near_half_sample env fuel (Fin 0) 2 7) as Hs.
    cbv zeta in Hs. change (Z.of_nat 7) with 7%Z in Hs.
    change (Z.to_nat 7) with 7%nat.
    rewrite Hs by lra. reflexivity.
  - simpl. lia.
  - unfold Double.of_int. rewrite read_numSamples_count by lra.
    rewrite Rtrunc_IZR. reflexivity.
Qed.

Lemma accepted_angle_in_range_witness :
  exists a : R,
    Fin (spec_samplingParameter 2
         * (2 * (IZR 1073741824 / IZR glibc_RAND_MAX) - 1)
         / (IZR 1073741824 / IZR glibc_RAND_MAX)) = Fin a
    /\ Rabs a <= PI.
Proof.
  apply (accepted_angle_in_range glibc_RAND_MAX nat
           (constant_rand 1073741824) 1 2 0%nat 2%nat);
    [reflexivity |].
  apply (near_half_rejection_loop 0 2 0). lra.
Defined.

Lemma rejection_loop_draws_witness :
  exists passes : nat,
    (1 <= passes <= 1)%nat
    /\ 2%nat = Nat.iter (2 * passes)
                 (fun g0 => (constant_rand 1073741824 g0).2) 0%nat.
Proof.
  apply (rejection_loop_draws glibc_RAND_MAX nat
           (constant_rand 1073741824) 1 (Fin 2) (samplingParameter (Fin 2))
           0%nat 2%nat
           (Fin (spec_samplingParameter 2
                 * (2 * (IZR 1073741824 / IZR glibc_RAND_MAX) - 1)
                 / (IZR 1073741824 / IZR glibc_RAND_MAX)))).
  apply (near_half_rejection_loop 0 2 0). lra.
Defined.

Lemma sample_frame_witness :
  let u := IZR 1073741824 / IZR glibc_RAND_MAX in
  let out :=
    replicate 7
      (recentre (Fin 0) (Fin (spec_samplingParameter 2 * (2 * u - 1) / u)))
      ++ [Fin 9] in
  length out = length (replicate 7 (Fin 0) ++ [Fin 9])
  /\ drop 7 out = drop 7 (replicate 7 (Fin 0) ++ [Fin 9]).
Proof.
  apply (sample_frame glibc_RAND_MAX nat constant_srand
           (constant_rand 1073741824) example_env 1 (Fin 0) (Fin 2) 7
           (replicate 7 (Fin 0) ++ [Fin 9])).
  - simpl. lia.
  - apply (near_half_sample_longer example_env 0 (Fin 0) 2 7 (Fin 9)). lra.
Defined.

Lemma nan_mean_gives_nan_samples_witness :
  replicate 7
    (recentre NaN
       (Fin (spec_samplingParameter 2
             * (2 * (IZR 1073741824 / IZR glibc_RAND_MAX) - 1)
             / (IZR 1073741824 / IZR glibc_RAND_MAX))))
  = replicate 7 NaN.
Proof.
  apply (nan_mean_gives_nan_samples glibc_RAND_MAX nat constant_srand
           (constant_rand 1073741824) example_env 1 (Fin 2) 7
           (replicate 7 (Fin 0))).
  - reflexivity.
  - apply (near_half_sample example_env 0 NaN 2 7). lra.
Defined.

Lemma nan_concentration_gives_nan_samples_witness :
  sample ansi_RAND_MAX ansi_srand ansi_rand example_env 1 (Fin 0) NaN
    (replicate 7 (Fin 0)) 7
  = Some (replicate 7 NaN).
Proof.
  apply (nan_concentration_gives_nan_samples ansi_RAND_MAX Z ansi_srand
           ansi_rand example_env 0 (Fin 0) 7 (replicate 7 (Fin 0))).
  reflexivity.
Defined.

Lemma infinite_concentration_gives_recentred_mean_witness :
  sample glibc_RAND_MAX constant_srand (constant_rand 1073741824)
    example_env 1 (Fin 1) PInf (replicate 7 (Fin 0)) 7
  = Some (replicate 7
            (Double.atan2 (Double.sin (Fin 1)) (Double.cos (Fin 1)))).
Proof.
  apply (infinite_concentration_gives_recentred_mean glibc_RAND_MAX nat
           constant_srand (constant_rand 1073741824) example_env 0 (Fin 1)
           7 (replicate 7 (Fin 0)));
    [reflexivity | intros g; reflexivity | reflexivity].
Defined.

Lemma count_conversion_undefined_iff_witness :
  mexFunction glibc_RAND_MAX constant_srand (constant_rand 1073741824)
    example_env 1 1
    [double_scalar (Fin 0); double_scalar (Fin 2); double_scalar PInf]
  = Undefined
  <-> True.
Proof.
  pose proof PI_RGT_0 as Hpi.
  apply (count_conversion_undefined_iff glibc_RAND_MAX nat constant_srand
           (constant_rand 1073741824) example_env 1 0 2 PInf); lra.
Defined.

Lemma returned_length_bounded_witness :
  (Z.of_nat
     (length
        (replicate 7
           (recentre (Fin 0)
              (Fin (spec_samplingParameter 2
                    * (2 * (IZR 1073741824 / IZR glibc_RAND_MAX) - 1)
                    / (IZR 1073741824 / IZR glibc_RAND_MAX))))))
   <= Double.INT_MAX)%Z.
Proof.
  apply (returned_length_bounded glibc_RAND_MAX nat constant_srand
           (constant_rand 1073741824) example_env 1 1
           [double_scalar (Fin 0); double_scalar (Fin 2);
            double_scalar (Double.of_int 7)]).
  apply (near_half_mexFunction example_env 0).
Defined.

Lemma returned_samples_bounded_witness :
  Forall (fun x : double => exists r : R, x = Fin r /\ - PI <= r <= PI)
    (replicate 7
       (recentre (Fin 0)
          (Fin (spec_samplingParameter 2
                * (2 * (IZR 1073741824 / IZR glibc_RAND_MAX) - 1)
                / (IZR 1073741824 / IZR glibc_RAND_MAX))))).
Proof.
  apply (returned_samples_bounded glibc_RAND_MAX nat constant_srand
           (constant_rand 1073741824) example_env 1 1
           (double_scalar (Fin 0)) (double_scalar (Fin 2))
           [double_scalar (Double.of_int 7)] 0 2);
    [reflexivity | reflexivity | reflexivity |].
  apply (near_half_mexFunction example_env 0).
Defined.

Lemma abort_precedes_sampling_witness :
  mexFunction ansi_RAND_MAX ansi_srand ansi_rand example_env' 5 1
    [double_scalar (Fin 0)]
  = MexError err_nrhs.
Proof.
  apply (abort_precedes_sampling glibc_RAND_MAX nat constant_srand
           (constant_rand 1073741824) example_env example_env' 1 5 1
           [double_scalar (Fin 0)] err_nrhs ansi_RAND_MAX Z ansi_srand
           ansi_rand).
  reflexivity.
Defined.
